(** * kpmcore: the resize/move operation (src/ops/resizeoperation.cpp)

    A shallow embedding of [ResizeOperation]: the action classification
    [resizeAction], the job list composed by the constructor, the preview
    and undo steps, the execution of the shrink, move and grow phases with
    their rollbacks, and the eligibility predicates [canGrow], [canShrink]
    and [canMove]. *)

From Stdlib Require Import ZArith List Bool Lia Sorted.
Import ListNotations.

Local Open Scope Z_scope.

(** ** qint64 arithmetic *)

Module QInt64.

Definition modulus : Z := 2 ^ 64.
Definition min_signed : Z := - 2 ^ 63.
Definition max_signed : Z := 2 ^ 63 - 1.

(** Two's complement wrap-around of a mathematical integer into qint64. *)
Definition wrap (z : Z) : Z := (z + 2 ^ 63) mod modulus - 2 ^ 63.

Definition add (a b : Z) : Z := wrap (a + b).
Definition sub (a b : Z) : Z := wrap (a - b).

Definition in_range (z : Z) : Prop := min_signed <= z <= max_signed.

End QInt64.

(** ** Data model *)

(** Modelled from the spec: [PartitionRole::Roles] (core/partitionrole.h is
    not among the sources); a partition carries a set of roles and
    [has] tests membership. *)
Inductive Role := Primary | Extended | Logical | Unallocated | Luks | Lvm_Lv.

Definition Role_eqb (a b : Role) : bool :=
  match a, b with
  | Primary, Primary | Extended, Extended | Logical, Logical
  | Unallocated, Unallocated | Luks, Luks | Lvm_Lv, Lvm_Lv => true
  | _, _ => false
  end.

Definition PartitionRole := list Role.

Definition has (rs : PartitionRole) (r : Role) : bool := existsb (Role_eqb r) rs.

(** Modelled from the spec: [Partition::State] (core/partition.h is not
    among the sources); the provenance of a partition. *)
Inductive PartitionState := StateNew | StateExisting | StateCopy.

Definition PartitionState_eqb (a b : PartitionState) : bool :=
  match a, b with
  | StateNew, StateNew | StateExisting, StateExisting | StateCopy, StateCopy => true
  | _, _ => false
  end.

(** Modelled from the spec: [PartitionTable::TableType]; [none] is the
    sentinel of a whole device holding one file system and no table. *)
Inductive TableType := none | msdos | gpt.

Definition TableType_eqb (a b : TableType) : bool :=
  match a, b with
  | none, none | msdos, msdos | gpt, gpt => true
  | _, _ => false
  end.

(** Modelled from the spec: [FileSystem::CommandSupportType]
    (fs/filesystem.h is not among the sources); an integer enumeration
    whose zero value [cmdSupportNone] is the unsupported tier.  A value
    returned where a [bool] is expected converts as "non-zero". *)
Definition CommandSupportType := Z.
Definition cmdSupportNone : CommandSupportType := 0.
Definition cmdSupportCore : CommandSupportType := 1.
Definition cmdSupportFileSystem : CommandSupportType := 2.
Definition cmdSupportBackend : CommandSupportType := 4.

Definition to_bool (c : CommandSupportType) : bool := negb (c =? 0).

(** Modelled from the spec: [FileSystem::Type]; only the three types the
    resize code names are told apart from the rest. *)
Inductive FileSystemType := Lvm2_PV | FsLuks | FsLuks2 | FsExtended | FsOther.

Definition FileSystemType_eqb (a b : FileSystemType) : bool :=
  match a, b with
  | Lvm2_PV, Lvm2_PV | FsLuks, FsLuks | FsLuks2, FsLuks2
  | FsExtended, FsExtended | FsOther, FsOther => true
  | _, _ => false
  end.

(** The capability surface of a file system, as the resize code reads it.
    [innerFS] is the file system inside an encrypted container (a null
    pointer is [None]); it is read for the two Luks types only. *)
Record FileSystem := mkFileSystem {
  fsType : FileSystemType;
  innerFS : option FileSystemType;
  supportGrow : CommandSupportType;
  supportShrink : CommandSupportType;
  supportMove : CommandSupportType;
  supportGrowOnline : CommandSupportType;
  supportShrinkOnline : CommandSupportType;
  supportCheck : CommandSupportType
}.

(** A partition object.  [address] is the identity of the object (the
    value of a pointer to it), which the set of dirty physical volumes
    compares. *)
Record Partition := mkPartition {
  address : N;
  firstSector : Z;
  lastSector : Z;
  roles : PartitionRole;
  state : PartitionState;
  tableType : TableType;
  isMounted : bool;
  hasChildren : bool;
  fileSystem : FileSystem
}.

Definition setFirstSector (p : Partition) (s : Z) : Partition :=
  mkPartition (address p) s (lastSector p) (roles p) (state p) (tableType p)
              (isMounted p) (hasChildren p) (fileSystem p).

Definition setLastSector (p : Partition) (s : Z) : Partition :=
  mkPartition (address p) (firstSector p) s (roles p) (state p) (tableType p)
              (isMounted p) (hasChildren p) (fileSystem p).

(** Modelled from the spec: [Partition::length]; first and last sector are
    inclusive. *)
Definition length (p : Partition) : Z :=
  QInt64.add (QInt64.sub (lastSector p) (firstSector p)) 1.

(** Modelled from the spec: [CheckOperation::canCheck] (ops/checkoperation.cpp
    is not among the sources); the check jobs exist only when the file
    system supports checking. *)
Definition canCheck (p : Partition) : bool :=
  negb (supportCheck (fileSystem p) =? cmdSupportNone).

(** ** Jobs *)

(** The four job primitives.  Every job of one operation targets that
    operation's device and partition, which are left implicit. *)
Inductive Job :=
| CheckFileSystemJob
| SetPartGeometryJob (newStart newLength : Z)
| ResizeFileSystemJob (newLength : Z)
| MoveFileSystemJob (newStart : Z).

Definition isSetPartGeometryJob (j : Job) : bool :=
  match j with SetPartGeometryJob _ _ => true | _ => false end.

Definition isFileSystemJob (j : Job) : bool :=
  match j with SetPartGeometryJob _ _ => false | _ => true end.

(** ** Resize actions *)

(** Modelled from the spec: [ResizeOperation::ResizeAction]
    (ops/resizeoperation.h is not among the sources); a bit mask with one
    bit per elementary action, the pairings being the unions. *)
Module ResizeAction.
Definition t := Z.
Definition None : t := 0.
Definition MoveLeft : t := 1.
Definition MoveRight : t := 2.
Definition Grow : t := 4.
Definition Shrink : t := 8.
Definition MoveLeftGrow : t := 5.
Definition MoveRightGrow : t := 6.
Definition MoveLeftShrink : t := 9.
Definition MoveRightShrink : t := 10.

(** [a & b] used as a condition. *)
Definition test (a b : t) : bool := negb (Z.land a b =? 0).

Definition nonNone : list t :=
  [MoveLeft; MoveRight; Grow; Shrink;
   MoveLeftGrow; MoveRightGrow; MoveLeftShrink; MoveRightShrink].
End ResizeAction.

(** [Operation::OperationStatus] (ops/operation.h). *)
Inductive OperationStatus :=
| StatusNone
| StatusPending
| StatusRunning
| StatusFinishedSuccess
| StatusFinishedWarning
| StatusError.

(** ** The operation object *)

Record ResizeOperation := mkResizeOperation {
  origFirstSector : Z;
  origLastSector : Z;
  newFirstSector : Z;
  newLastSector : Z;
  checkOriginalJob : Job;
  moveExtendedJob : option Job;
  shrinkResizeJob : option Job;
  shrinkSetGeomJob : option Job;
  moveSetGeomJob : option Job;
  moveFileSystemJob : option Job;
  growResizeJob : option Job;
  growSetGeomJob : option Job;
  checkResizedJob : option Job;
  jobs : list Job
}.

(** Modelled from the spec: [origLength] and [newLength]
    (ops/resizeoperation.h); sector ranges are inclusive. *)
Definition origLength (op : ResizeOperation) : Z :=
  QInt64.add (QInt64.sub (origLastSector op) (origFirstSector op)) 1.

Definition newLength (op : ResizeOperation) : Z :=
  QInt64.add (QInt64.sub (newLastSector op) (newFirstSector op)) 1.

Definition resizeAction (op : ResizeOperation) : ResizeAction.t :=
  let action := ResizeAction.None in
  let action := if newLength op >? origLength op then ResizeAction.Grow else action in
  let action := if newLength op <? origLength op then ResizeAction.Shrink else action in
  let action := if newFirstSector op >? origFirstSector op
                then Z.lor action ResizeAction.MoveRight else action in
  let action := if newFirstSector op <? origFirstSector op
                then Z.lor action ResizeAction.MoveLeft else action in
  action.

(** *** Field updates of the operation object *)

Definition set_jobs (op : ResizeOperation) (js : list Job) : ResizeOperation :=
  mkResizeOperation (origFirstSector op) (origLastSector op) (newFirstSector op)
    (newLastSector op) (checkOriginalJob op) (moveExtendedJob op) (shrinkResizeJob op)
    (shrinkSetGeomJob op) (moveSetGeomJob op) (moveFileSystemJob op) (growResizeJob op)
    (growSetGeomJob op) (checkResizedJob op) js.

Definition set_moveExtendedJob (op : ResizeOperation) (j : Job) : ResizeOperation :=
  mkResizeOperation (origFirstSector op) (origLastSector op) (newFirstSector op)
    (newLastSector op) (checkOriginalJob op) (Some j) (shrinkResizeJob op)
    (shrinkSetGeomJob op) (moveSetGeomJob op) (moveFileSystemJob op) (growResizeJob op)
    (growSetGeomJob op) (checkResizedJob op) (jobs op).

Definition set_shrinkResizeJob (op : ResizeOperation) (j : Job) : ResizeOperation :=
  mkResizeOperation (origFirstSector op) (origLastSector op) (newFirstSector op)
    (newLastSector op) (checkOriginalJob op) (moveExtendedJob op) (Some j)
    (shrinkSetGeomJob op) (moveSetGeomJob op) (moveFileSystemJob op) (growResizeJob op)
    (growSetGeomJob op) (checkResizedJob op) (jobs op).

Definition set_shrinkSetGeomJob (op : ResizeOperation) (j : Job) : ResizeOperation :=
  mkResizeOperation (origFirstSector op) (origLastSector op) (newFirstSector op)
    (newLastSector op) (checkOriginalJob op) (moveExtendedJob op) (shrinkResizeJob op)
    (Some j) (moveSetGeomJob op) (moveFileSystemJob op) (growResizeJob op)
    (growSetGeomJob op) (checkResizedJob op) (jobs op).

Definition set_moveSetGeomJob (op : ResizeOperation) (j : Job) : ResizeOperation :=
  mkResizeOperation (origFirstSector op) (origLastSector op) (newFirstSector op)
    (newLastSector op) (checkOriginalJob op) (moveExtendedJob op) (shrinkResizeJob op)
    (shrinkSetGeomJob op) (Some j) (moveFileSystemJob op) (growResizeJob op)
    (growSetGeomJob op) (checkResizedJob op) (jobs op).

Definition set_moveFileSystemJob (op : ResizeOperation) (j : Job) : ResizeOperation :=
  mkResizeOperation (origFirstSector op) (origLastSector op) (newFirstSector op)
    (newLastSector op) (checkOriginalJob op) (moveExtendedJob op) (shrinkResizeJob op)
    (shrinkSetGeomJob op) (moveSetGeomJob op) (Some j) (growResizeJob op)
    (growSetGeomJob op) (checkResizedJob op) (jobs op).

Definition set_growResizeJob (op : ResizeOperation) (j : Job) : ResizeOperation :=
  mkResizeOperation (origFirstSector op) (origLastSector op) (newFirstSector op)
    (newLastSector op) (checkOriginalJob op) (moveExtendedJob op) (shrinkResizeJob op)
    (shrinkSetGeomJob op) (moveSetGeomJob op) (moveFileSystemJob op) (Some j)
    (growSetGeomJob op) (checkResizedJob op) (jobs op).

Definition set_growSetGeomJob (op : ResizeOperation) (j : Job) : ResizeOperation :=
  mkResizeOperation (origFirstSector op) (origLastSector op) (newFirstSector op)
    (newLastSector op) (checkOriginalJob op) (moveExtendedJob op) (shrinkResizeJob op)
    (shrinkSetGeomJob op) (moveSetGeomJob op) (moveFileSystemJob op) (growResizeJob op)
    (Some j) (checkResizedJob op) (jobs op).

Definition set_checkResizedJob (op : ResizeOperation) (j : Job) : ResizeOperation :=
  mkResizeOperation (origFirstSector op) (origLastSector op) (newFirstSector op)
    (newLastSector op) (checkOriginalJob op) (moveExtendedJob op) (shrinkResizeJob op)
    (shrinkSetGeomJob op) (moveSetGeomJob op) (moveFileSystemJob op) (growResizeJob op)
    (growSetGeomJob op) (Some j) (jobs op).

(** [Operation::addJob]: the job is appended to the operation's list. *)
Definition addJob (op : ResizeOperation) (j : Job) : ResizeOperation :=
  set_jobs op (jobs op ++ [j]).

(** [addJob] of a job slot that the caller has just filled. *)
Definition addJobOf (op : ResizeOperation) (slot : ResizeOperation -> option Job)
  : ResizeOperation :=
  match slot op with
  | Some j => addJob op j
  | None => op
  end.

(** *** The constructor

    [p] is the partition object as it is when the operation is created;
    the constructor reads it and changes nothing. *)

Definition init (p : Partition) (newfirst newlast : Z) : ResizeOperation :=
  mkResizeOperation (firstSector p) (lastSector p) newfirst newlast
    CheckFileSystemJob None None None None None None None None [].

Definition composeShrink (p : Partition) (op : ResizeOperation) : ResizeOperation :=
  if ResizeAction.test (resizeAction op) ResizeAction.Shrink then
    let op := set_shrinkResizeJob op (ResizeFileSystemJob (newLength op)) in
    let op := set_shrinkSetGeomJob op (SetPartGeometryJob (firstSector p) (newLength op)) in
    let op := addJobOf op shrinkResizeJob in
    addJobOf op shrinkSetGeomJob
  else op.

Definition composeMove (p : Partition) (op : ResizeOperation) : ResizeOperation :=
  if ResizeAction.test (resizeAction op) ResizeAction.MoveLeft
     || ResizeAction.test (resizeAction op) ResizeAction.MoveRight then
    let currentLength :=
      if ResizeAction.test (resizeAction op) ResizeAction.Shrink
      then newLength op else length p in
    let op := set_moveSetGeomJob op (SetPartGeometryJob (newFirstSector op) currentLength) in
    let op := set_moveFileSystemJob op (MoveFileSystemJob (newFirstSector op)) in
    let op := addJobOf op moveSetGeomJob in
    addJobOf op moveFileSystemJob
  else op.

Definition composeGrow (p : Partition) (op : ResizeOperation) : ResizeOperation :=
  if ResizeAction.test (resizeAction op) ResizeAction.Grow then
    let op := set_growSetGeomJob op (SetPartGeometryJob (newFirstSector op) (newLength op)) in
    let op := set_growResizeJob op (ResizeFileSystemJob (newLength op)) in
    let op := addJobOf op growSetGeomJob in
    addJobOf op growResizeJob
  else op.

Definition ResizeOperation_new (p : Partition) (newfirst newlast : Z) : ResizeOperation :=
  let op := init p newfirst newlast in
  let op := if canCheck p then addJob op (checkOriginalJob op) else op in
  if has (roles p) Extended then
    let op := set_moveExtendedJob op (SetPartGeometryJob (newFirstSector op) (newLength op)) in
    addJobOf op moveExtendedJob
  else
    let op := composeShrink p op in
    let op := composeMove p op in
    let op := composeGrow p op in
    let op := set_checkResizedJob op CheckFileSystemJob in
    if canCheck p then addJobOf op checkResizedJob else op.

(** ** Preview and undo *)

(** Modelled from the spec: [Operation::removePreviewPartition] and
    [Operation::insertPreviewPartition] (ops/operation.cpp is not among the
    sources; ops/operation.h declares them).  They take the partition out
    of, and put it back into, the partition table of the preview device;
    the table is kept abstract. *)
Class PreviewTable (T : Type) := {
  removePreviewPartition : T -> Partition -> T;
  insertPreviewPartition : T -> Partition -> T
}.

(** The part of the preview model an operation touches: the partition
    object it refers to, and the table of the target device. *)
Record Preview (T : Type) := mkPreview {
  part : Partition;
  table : T
}.
Arguments mkPreview {T} _ _.
Arguments part {T} _.
Arguments table {T} _.

Definition preview {T} `{PreviewTable T} (op : ResizeOperation) (s : Preview T) : Preview T :=
  let p := part s in
  let p :=
    if (firstSector p =? newFirstSector op) && (lastSector p =? newLastSector op)
    then setLastSector (setFirstSector p (origFirstSector op)) (origLastSector op)
    else p in
  let t := removePreviewPartition (table s) p in
  let p := setFirstSector p (newFirstSector op) in
  let p := setLastSector p (newLastSector op) in
  let t := insertPreviewPartition t p in
  mkPreview p t.

Definition undo {T} `{PreviewTable T} (op : ResizeOperation) (s : Preview T) : Preview T :=
  let p := part s in
  let t := removePreviewPartition (table s) p in
  let p := setFirstSector p (origFirstSector op) in
  let p := setLastSector p (origLastSector op) in
  let t := insertPreviewPartition t p in
  mkPreview p t.

(** A concrete table: the sector ranges of the partitions of the device,
    by address, in sector order. *)
Module SectorTable.

Definition entry := (N * (Z * Z))%type.
Definition t := list entry.

Definition entryOf (p : Partition) : entry :=
  (address p, (firstSector p, lastSector p)).

Definition remove (tb : t) (p : Partition) : t :=
  filter (fun e => negb (N.eqb (fst e) (address p))) tb.

Fixpoint insertSorted (e : entry) (tb : t) : t :=
  match tb with
  | [] => [e]
  | e' :: tb' =>
      if fst (snd e) <=? fst (snd e') then e :: tb
      else e' :: insertSorted e tb'
  end.

Definition insert (tb : t) (p : Partition) : t := insertSorted (entryOf p) tb.

(** A table as the preview keeps it: in strict order of first sectors, one
    entry per partition. *)
Definition wellFormed (tb : t) : Prop :=
  StronglySorted (fun e e' : entry => fst (snd e) < fst (snd e')) tb
  /\ NoDup (map fst tb).

End SectorTable.

#[export] Instance SectorTable_PreviewTable : PreviewTable SectorTable.t := {
  removePreviewPartition := SectorTable.remove;
  insertPreviewPartition := SectorTable.insert
}.

(** ** Execution *)

(** Modelled from the spec: the job primitives' [run] (the jobs/ directory
    is not among the sources).  A job runs against the world [W], which
    holds the partition object, and returns whether it succeeded. *)
Class Backend (W : Type) := {
  partition : W -> Partition;
  run : Job -> W -> bool * W
}.

(** The lines the operation itself writes to the report. *)
Inductive Line :=
| MovingExtendedFailed
| CheckAfterFailed
| ResizingMovingFailed
| CheckBeforeFailed
| CouldNotShrinkFileSystem
| CouldNotShrinkPartition
| MovingPartitionFailed
| MovingFileSystemFailedRollingBack
| MovingBackFailed
| CouldNotGrowPartition
| CouldNotGrowFileSystem
| CouldNotRestoreOldSize.

(** The state [execute] threads: the world, the operation's status, the
    jobs that have run with their results (oldest first), and the report
    lines of the operation. *)
Record Exec (W : Type) := mkExec {
  world : W;
  status : OperationStatus;
  ran : list (Job * bool);
  report : list Line
}.
Arguments mkExec {W} _ _ _ _.
Arguments world {W} _.
Arguments status {W} _.
Arguments ran {W} _.
Arguments report {W} _.

(** State passing with failure: [None] is a null pointer dereference. *)
Definition M (W A : Type) : Type := Exec W -> option (A * Exec W).

Definition ret {W A} (a : A) : M W A := fun st => Some (a, st).

Definition bind {W A B} (m : M W A) (k : A -> M W B) : M W B :=
  fun st =>
    match m st with
    | Some (a, st') => k a st'
    | None => None
    end.

Declare Scope exec_scope.
Delimit Scope exec_scope with exec.
Notation "x <- m ;; k" := (bind m (fun x => k))
  (at level 61, m at next level, right associativity) : exec_scope.
Notation "m ;; k" := (bind m (fun _ => k))
  (at level 61, right associativity) : exec_scope.
Local Open Scope exec_scope.

Section Execute.

Context {W : Type} `{Backend W}.

Definition getPartition : M W Partition :=
  fun st => Some (partition (world st), st).

Definition runJob (j : Job) : M W bool :=
  fun st =>
    let (ok, w) := run j (world st) in
    Some (ok, mkExec w (status st) (ran st ++ [(j, ok)]) (report st)).

Definition line (l : Line) : M W unit :=
  fun st => Some (tt, mkExec (world st) (status st) (ran st) (report st ++ [l])).

Definition setStatus (s : OperationStatus) : M W unit :=
  fun st => Some (tt, mkExec (world st) s (ran st) (report st)).

(** [job->run(report)] through a pointer that may be null. *)
Definition deref (slot : option Job) : M W Job :=
  fun st => match slot with Some j => Some (j, st) | None => None end.

(** The condition [job && !job->run(report)]. *)
Definition presentAndFails (slot : option Job) : M W bool :=
  match slot with
  | Some j => ok <- runJob j ;; ret (negb ok)
  | None => ret false
  end.

(** Short-circuit [&&] of two calls. *)
Definition andThen (a b : M W bool) : M W bool :=
  x <- a ;; if x then b else ret false.

Definition shrink (op : ResizeOperation) : M W bool :=
  failed <- presentAndFails (shrinkResizeJob op) ;;
  if failed then
    line CouldNotShrinkFileSystem ;; ret false
  else
    failed <- presentAndFails (shrinkSetGeomJob op) ;;
    if failed then
      line CouldNotShrinkPartition ;; ret false
    else ret true.

Definition move (op : ResizeOperation) : M W bool :=
  p <- getPartition ;;
  let oldStart := firstSector p in
  failed <- presentAndFails (moveSetGeomJob op) ;;
  if failed then
    line MovingPartitionFailed ;; ret false
  else
    failed <- presentAndFails (moveFileSystemJob op) ;;
    if failed then
      line MovingFileSystemFailedRollingBack ;;
      p <- getPartition ;;
      ok <- runJob (SetPartGeometryJob oldStart (length p)) ;;
      (if ok then ret tt else line MovingBackFailed) ;;
      ret false
    else ret true.

Definition grow (op : ResizeOperation) : M W bool :=
  p <- getPartition ;;
  let oldLength := length p in
  failed <- presentAndFails (growSetGeomJob op) ;;
  if failed then
    line CouldNotGrowPartition ;; ret false
  else
    failed <- presentAndFails (growResizeJob op) ;;
    if failed then
      line CouldNotGrowFileSystem ;;
      p <- getPartition ;;
      ok <- runJob (SetPartGeometryJob (firstSector p) oldLength) ;;
      (if ok then ret tt else line CouldNotRestoreOldSize) ;;
      ret false
    else ret true.

(** The pre-check of [execute]: [rval] stays [true] when the file system
    cannot be checked. *)
Definition checkOriginal (op : ResizeOperation) : M W bool :=
  p <- getPartition ;;
  if canCheck p then runJob (checkOriginalJob op) else ret true.

(** The three phases, joined by short-circuit [&&]. *)
Definition phases (op : ResizeOperation) : M W bool :=
  andThen (andThen (shrink op) (move op)) (grow op).

(** The post-check of [execute], reached with [rval] true. *)
Definition checkResized (op : ResizeOperation) : M W bool :=
  p <- getPartition ;;
  if canCheck p then
    j <- deref (checkResizedJob op) ;;
    rval <- runJob j ;;
    (if rval then ret tt else line CheckAfterFailed) ;;
    ret rval
  else ret true.

Definition execute (op : ResizeOperation) : M W bool :=
  rval <- checkOriginal op ;;
  rval <-
    (if rval then
       match moveExtendedJob op with
       | Some j =>
           rval <- runJob j ;;
           (if rval then ret tt else line MovingExtendedFailed) ;;
           ret rval
       | None =>
           rval <- phases op ;;
           if rval then checkResized op
           else line ResizingMovingFailed ;; ret false
       end
     else line CheckBeforeFailed ;; ret false) ;;
  setStatus (if rval then StatusFinishedSuccess else StatusError) ;;
  ret rval.

End Execute.

(** A backend for concrete runs: the world is the partition together with
    a script of job results, consumed one per job (a job run after the
    script has ended succeeds).  A geometry job that succeeds writes the
    new sector range to the partition; nothing else touches it. *)
Module Scripted.

Record t := mk {
  target : Partition;
  script : list bool
}.

Definition apply (j : Job) (p : Partition) : Partition :=
  match j with
  | SetPartGeometryJob newStart newLength =>
      setLastSector (setFirstSector p newStart)
                    (QInt64.sub (QInt64.add newStart newLength) 1)
  | _ => p
  end.

Definition step (j : Job) (w : t) : bool * t :=
  match script w with
  | [] => (true, mk (apply j (target w)) [])
  | true :: rest => (true, mk (apply j (target w)) rest)
  | false :: rest => (false, mk (target w) rest)
  end.

End Scripted.

#[export] Instance Scripted_Backend : Backend Scripted.t := {
  partition := Scripted.target;
  run := Scripted.step
}.

(** The state in which the operation stack starts an operation. *)
Definition start {W} (w : W) : Exec W := mkExec w StatusRunning [] [].

(** ** Eligibility predicates *)

(** [LvmDevice::s_DirtyPVs.contains(p)]: the set holds pointers. *)
Definition contains (s_DirtyPVs : list N) (a : N) : bool :=
  existsb (N.eqb a) s_DirtyPVs.

Definition isLVMPVinNewlyVG (s_DirtyPVs : list N) (p : Partition) : bool :=
  if FileSystemType_eqb (fsType (fileSystem p)) Lvm2_PV then
    if contains s_DirtyPVs (address p) then true else false
  else if FileSystemType_eqb (fsType (fileSystem p)) FsLuks
          || FileSystemType_eqb (fsType (fileSystem p)) FsLuks2 then
    match innerFS (fileSystem p) with
    | Some fs =>
        if FileSystemType_eqb fs Lvm2_PV then
          if contains s_DirtyPVs (address p) then true else false
        else false
    | None => false
    end
  else false.

(** A [const Partition*] argument: [None] is the null pointer. *)
Definition canGrow (s_DirtyPVs : list N) (p : option Partition) : bool :=
  match p with
  | None => false
  | Some p =>
      if TableType_eqb (tableType p) none then false
      else if isLVMPVinNewlyVG s_DirtyPVs p then false
      else if PartitionState_eqb (state p) StateNew && negb (has (roles p) Luks) then true
      else if isMounted p then to_bool (supportGrowOnline (fileSystem p))
      else negb (supportGrow (fileSystem p) =? cmdSupportNone)
  end.

Definition canShrink (s_DirtyPVs : list N) (p : option Partition) : bool :=
  match p with
  | None => false
  | Some p =>
      if TableType_eqb (tableType p) none then false
      else if isLVMPVinNewlyVG s_DirtyPVs p then false
      else if PartitionState_eqb (state p) StateNew && negb (has (roles p) Luks) then true
      else if PartitionState_eqb (state p) StateCopy then false
      else if isMounted p then to_bool (supportShrinkOnline (fileSystem p))
      else negb (supportShrink (fileSystem p) =? cmdSupportNone)
  end.

Definition canMove (s_DirtyPVs : list N) (p : option Partition) : bool :=
  match p with
  | None => false
  | Some p =>
      if TableType_eqb (tableType p) none then false
      else if isLVMPVinNewlyVG s_DirtyPVs p then false
      else if PartitionState_eqb (state p) StateNew then
        (if has (roles p) Luks then false else true)
      else if isMounted p then false
      else if has (roles p) Extended && hasChildren p then false
      else negb (supportMove (fileSystem p) =? cmdSupportNone)
  end.

(** ** Vocabulary of the statements *)

(** The jobs a phase contributes to a list: [js] when the phase was
    composed, none otherwise. *)
Definition phaseJobs (composed : bool) (js : list Job) : list Job :=
  if composed then js else [].

(** The four sectors an operation caches. *)
Definition sectors (op : ResizeOperation) : Z * Z * Z * Z :=
  (origFirstSector op, origLastSector op, newFirstSector op, newLastSector op).

(** The sector range of a partition. *)
Definition geometry (p : Partition) : Z * Z := (firstSector p, lastSector p).

(** The jobs of a trace, without their results. *)
Definition jobsRun (tr : list (Job * bool)) : list Job := map fst tr.

(** ** Sample data *)

Module Sample.

(** A file system that can be checked, resized and moved while unmounted. *)
Definition resizableFS : FileSystem :=
  mkFileSystem FsOther None cmdSupportFileSystem cmdSupportFileSystem cmdSupportCore
               cmdSupportNone cmdSupportNone cmdSupportFileSystem.

(** A file system without any capability. *)
Definition inertFS (ty : FileSystemType) : FileSystem :=
  mkFileSystem ty None cmdSupportNone cmdSupportNone cmdSupportNone
               cmdSupportNone cmdSupportNone cmdSupportNone.

(** The partition of the scenarios: sectors 1000 to 1999. *)
Definition primary : Partition :=
  mkPartition 1 1000 1999 [Primary] StateExisting gpt false false resizableFS.

(** An extended partition with logical children, which cannot be checked. *)
Definition extended : Partition :=
  mkPartition 2 4000 7999 [Extended] StateExisting msdos false true (inertFS FsExtended).

(** A new, not yet written encrypted container without resize support. *)
Definition newLuks : Partition :=
  mkPartition 4 2048 4095 [Primary; Luks] StateNew gpt false false (inertFS FsLuks).

(** A new plain partition. *)
Definition newPlain : Partition :=
  mkPartition 5 2048 4095 [Primary] StateNew gpt false false (inertFS FsOther).

(** The target of a copy. *)
Definition copied : Partition :=
  mkPartition 6 2048 4095 [Primary] StateCopy gpt false false resizableFS.

End Sample.

(** ** The description of an operation *)

(** [ResizeOperation::description]: which of the nine texts is chosen, with
    the byte counts handed to [Capacity::formatByteSize] (util/capacity.cpp
    is not among the sources, so the counts stand for their formatted
    text).  [logicalSize] is the logical sector size of the target
    device. *)
Inductive Description :=
| DescMoveLeft (moveDelta : Z)
| DescMoveRight (moveDelta : Z)
| DescGrow (origCapacity newCapacity : Z)
| DescShrink (origCapacity newCapacity : Z)
| DescMoveLeftGrow (moveDelta origCapacity newCapacity : Z)
| DescMoveRightGrow (moveDelta origCapacity newCapacity : Z)
| DescMoveLeftShrink (moveDelta origCapacity newCapacity : Z)
| DescMoveRightShrink (moveDelta origCapacity newCapacity : Z)
| DescUnknown.

(** [qAbs] and [*] on qint64. *)
Definition qAbs (z : Z) : Z := if z >=? 0 then z else QInt64.wrap (- z).
Definition mul64 (a b : Z) : Z := QInt64.wrap (a * b).

Definition description (logicalSize : Z) (op : ResizeOperation) : Description :=
  let moveDelta :=
    mul64 (qAbs (QInt64.sub (newFirstSector op) (origFirstSector op))) logicalSize in
  let origCapacity := mul64 (origLength op) logicalSize in
  let newCapacity := mul64 (newLength op) logicalSize in
  let a := resizeAction op in
  if a =? ResizeAction.MoveLeft then DescMoveLeft moveDelta
  else if a =? ResizeAction.MoveRight then DescMoveRight moveDelta
  else if a =? ResizeAction.Grow then DescGrow origCapacity newCapacity
  else if a =? ResizeAction.Shrink then DescShrink origCapacity newCapacity
  else if a =? ResizeAction.MoveLeftGrow then DescMoveLeftGrow moveDelta origCapacity newCapacity
  else if a =? ResizeAction.MoveRightGrow then DescMoveRightGrow moveDelta origCapacity newCapacity
  else if a =? ResizeAction.MoveLeftShrink
       then DescMoveLeftShrink moveDelta origCapacity newCapacity
  else if a =? ResizeAction.MoveRightShrink
       then DescMoveRightShrink moveDelta origCapacity newCapacity
  else DescUnknown.

(** What a description says the operation does. *)
Definition saysMoveLeft (d : Description) : bool :=
  match d with
  | DescMoveLeft _ | DescMoveLeftGrow _ _ _ | DescMoveLeftShrink _ _ _ => true
  | _ => false
  end.

Definition saysMoveRight (d : Description) : bool :=
  match d with
  | DescMoveRight _ | DescMoveRightGrow _ _ _ | DescMoveRightShrink _ _ _ => true
  | _ => false
  end.

Definition saysGrow (d : Description) : bool :=
  match d with
  | DescGrow _ _ | DescMoveLeftGrow _ _ _ | DescMoveRightGrow _ _ _ => true
  | _ => false
  end.

Definition saysShrink (d : Description) : bool :=
  match d with
  | DescShrink _ _ | DescMoveLeftShrink _ _ _ | DescMoveRightShrink _ _ _ => true
  | _ => false
  end.

(** ** More vocabulary *)

(** The last geometry job of a list, if there is one. *)
Definition lastSetPartGeometryJob (js : list Job) : option Job :=
  fold_left (fun acc j => if isSetPartGeometryJob j then Some j else acc) js None.

(** The jobs in the slots of a phase, in the order the phase runs them. *)
Definition slotJobs (slots : list (option Job)) : list Job :=
  flat_map (fun s => match s with Some j => [j] | None => [] end) slots.

(** A trace in which every job succeeded. *)
Definition allSucceeded (tr : list (Job * bool)) : bool := forallb snd tr.

(** More sample partitions. *)
Module Sample2.

(** A file system that sits on a whole device, without a table. *)
Definition wholeDevice : Partition :=
  mkPartition 7 0 9999 [Primary] StateNew none false false Sample.resizableFS.

(** A physical volume of a volume group created in this session. *)
Definition dirtyPV : Partition :=
  mkPartition 8 2048 4095 [Primary] StateNew gpt false false (Sample.inertFS Lvm2_PV).

(** A mounted partition whose file system could be moved offline. *)
Definition mounted : Partition :=
  mkPartition 9 2048 4095 [Primary] StateExisting gpt true false Sample.resizableFS.

End Sample2.

(** ** Vocabulary of the execution traces *)

(** A property of the world that no job run breaks. *)
Definition preserved {W : Type} `{Backend W} (I : W -> Prop) : Prop :=
  forall (j : Job) (w : W), I w -> I (snd (run j w)).

(** What a step of [execute] may do to the state: it appends the jobs it
    runs to the trace, answers [true] exactly when all of them succeeded,
    runs the jobs [js] when it answers [true], leaves the status alone and
    changes the world through jobs only. *)
Definition stepSpec {W : Type} `{Backend W} (m : M W bool) (js : list Job) : Prop :=
  forall (st : Exec W),
  exists (r : bool) (st' : Exec W) (tr : list (Job * bool)),
    m st = Some (r, st')
    /\ ran st' = ran st ++ tr
    /\ r = allSucceeded tr
    /\ status st' = status st
    /\ (r = true -> map fst tr = js)
    /\ (forall I : W -> Prop, preserved I -> I (world st) -> I (world st')).

(** The jobs [execute] runs after a pre-check that passed or was skipped,
    when every job succeeds; [cpost] is whether the post-check runs. *)
Definition afterCheck (op : ResizeOperation) (cpost : bool) : list Job :=
  match moveExtendedJob op with
  | Some g => [g]
  | None =>
      slotJobs [shrinkResizeJob op; shrinkSetGeomJob op;
                moveSetGeomJob op; moveFileSystemJob op;
                growSetGeomJob op; growResizeJob op]
      ++ phaseJobs cpost (slotJobs [checkResizedJob op])
  end.


Definition isResizeFileSystemJob (j : Job) : bool :=
  match j with ResizeFileSystemJob _ => true | _ => false end.

Definition isMoveFileSystemJob (j : Job) : bool :=
  match j with MoveFileSystemJob _ => true | _ => false end.




(** * Properties *)

(** ** qint64 *)

Lemma wrap_in_range (z : Z) : QInt64.in_range (QInt64.wrap z).
Proof.
  unfold QInt64.in_range, QInt64.wrap, QInt64.min_signed, QInt64.max_signed, QInt64.modulus.
  pose proof (Z.mod_pos_bound (z + 2 ^ 63) (2 ^ 64) ltac:(lia)). lia.
Qed.

Lemma wrap_id (z : Z) : QInt64.in_range z -> QInt64.wrap z = z.
Proof.
  unfold QInt64.in_range, QInt64.wrap, QInt64.min_signed, QInt64.max_signed, QInt64.modulus.
  intros Hz. rewrite Z.mod_small; lia.
Qed.

(** ** The action classification *)

Section ResizeActionBits.

Variable op : ResizeOperation.

Lemma resizeAction_Grow :
  ResizeAction.test (resizeAction op) ResizeAction.Grow = (newLength op >? origLength op).
Proof.
  unfold resizeAction.
  destruct (Z.gtb_spec (newLength op) (origLength op));
    destruct (Z.ltb_spec (newLength op) (origLength op)); try lia;
    destruct (newFirstSector op >? origFirstSector op);
    destruct (newFirstSector op <? origFirstSector op); reflexivity.
Qed.

Lemma resizeAction_Shrink :
  ResizeAction.test (resizeAction op) ResizeAction.Shrink = (newLength op <? origLength op).
Proof.
  unfold resizeAction.
  destruct (Z.gtb_spec (newLength op) (origLength op));
    destruct (Z.ltb_spec (newLength op) (origLength op)); try lia;
    destruct (newFirstSector op >? origFirstSector op);
    destruct (newFirstSector op <? origFirstSector op); reflexivity.
Qed.

Lemma resizeAction_MoveRight :
  ResizeAction.test (resizeAction op) ResizeAction.MoveRight
  = (newFirstSector op >? origFirstSector op).
Proof.
  unfold resizeAction.
  destruct (newLength op >? origLength op);
    destruct (newLength op <? origLength op);
    destruct (Z.gtb_spec (newFirstSector op) (origFirstSector op));
    destruct (Z.ltb_spec (newFirstSector op) (origFirstSector op)); try lia; reflexivity.
Qed.

Lemma resizeAction_MoveLeft :
  ResizeAction.test (resizeAction op) ResizeAction.MoveLeft
  = (newFirstSector op <? origFirstSector op).
Proof.
  unfold resizeAction.
  destruct (newLength op >? origLength op);
    destruct (newLength op <? origLength op);
    destruct (Z.gtb_spec (newFirstSector op) (origFirstSector op));
    destruct (Z.ltb_spec (newFirstSector op) (origFirstSector op)); try lia; reflexivity.
Qed.

End ResizeActionBits.

(** The two cases of the classification. *)
Lemma resizeAction_cases (op : ResizeOperation) :
  (newFirstSector op = origFirstSector op /\ newLength op = origLength op
   /\ resizeAction op = ResizeAction.None)
  \/ (~ (newFirstSector op = origFirstSector op /\ newLength op = origLength op)
      /\ In (resizeAction op) ResizeAction.nonNone).
Proof.
  unfold resizeAction, ResizeAction.nonNone.
  destruct (Z.gtb_spec (newLength op) (origLength op));
    destruct (Z.ltb_spec (newLength op) (origLength op));
    destruct (Z.gtb_spec (newFirstSector op) (origFirstSector op));
    destruct (Z.ltb_spec (newFirstSector op) (origFirstSector op));
    try lia;
    first [ left; repeat split; solve [lia | reflexivity]
          | right; split; [lia | cbn; tauto] ].
Qed.

Lemma ResizeAction_values_distinct : NoDup (ResizeAction.None :: ResizeAction.nonNone).
Proof. repeat constructor; cbn; intuition discriminate. Qed.

Lemma resizeAction_None_iff (op : ResizeOperation) :
  resizeAction op = ResizeAction.None
  <-> newFirstSector op = origFirstSector op /\ newLength op = origLength op.
Proof.
  pose proof ResizeAction_values_distinct as Hnodup.
  destruct (resizeAction_cases op) as [(Hf & Hl & Hn) | [Hdiff Hin]].
  - tauto.
  - split; [| tauto]. intros Hnone. rewrite Hnone in Hin.
    apply NoDup_cons_iff in Hnodup. tauto.
Qed.

(** C1.  For every quadruple of sectors, [resizeAction] is [None] exactly
    when the first sector and the length are both unchanged; otherwise it
    is one of the eight combinations, which are pairwise distinct values
    and distinct from [None]; it never carries both Grow and Shrink, nor
    both MoveLeft and MoveRight. *)
Theorem resizeAction_classification (op : ResizeOperation) :
  (resizeAction op = ResizeAction.None
   <-> newFirstSector op = origFirstSector op /\ newLength op = origLength op)
  /\ (resizeAction op <> ResizeAction.None -> In (resizeAction op) ResizeAction.nonNone)
  /\ NoDup (ResizeAction.None :: ResizeAction.nonNone)
  /\ ~ (ResizeAction.test (resizeAction op) ResizeAction.Grow = true
        /\ ResizeAction.test (resizeAction op) ResizeAction.Shrink = true)
  /\ ~ (ResizeAction.test (resizeAction op) ResizeAction.MoveLeft = true
        /\ ResizeAction.test (resizeAction op) ResizeAction.MoveRight = true).
Proof.
  split; [apply resizeAction_None_iff |].
  split; [| split; [exact ResizeAction_values_distinct | split]].
  - intros Hn. destruct (resizeAction_cases op) as [(_ & _ & Hnone) | [_ Hin]];
      [congruence | exact Hin].
  - rewrite resizeAction_Grow, resizeAction_Shrink. intros [Hg Hs].
    apply Z.gtb_lt in Hg. apply Z.ltb_lt in Hs. lia.
  - rewrite resizeAction_MoveLeft, resizeAction_MoveRight. intros [Hl Hr].
    apply Z.gtb_lt in Hr. apply Z.ltb_lt in Hl. lia.
Qed.

Lemma wrap_shift (z : Z) : exists k : Z, QInt64.wrap z = z - k * 2 ^ 64.
Proof.
  unfold QInt64.wrap, QInt64.modulus. exists ((z + 2 ^ 63) / 2 ^ 64).
  pose proof (Z.div_mod (z + 2 ^ 63) (2 ^ 64) ltac:(lia)). lia.
Qed.

(** For sectors that are qint64 values, an unchanged first sector and an
    unchanged length mean an unchanged last sector. *)
Lemma resizeAction_None_in_range (op : ResizeOperation) :
  QInt64.in_range (origLastSector op) -> QInt64.in_range (newLastSector op) ->
  (resizeAction op = ResizeAction.None
   <-> newFirstSector op = origFirstSector op /\ newLastSector op = origLastSector op).
Proof.
  intros H2 H4. rewrite resizeAction_None_iff.
  split; intros [Hf Hl]; split; try assumption.
  - unfold newLength, origLength, QInt64.add, QInt64.sub in Hl. rewrite Hf in Hl.
    destruct (wrap_shift (newLastSector op - origFirstSector op)) as [k1 E1].
    destruct (wrap_shift (origLastSector op - origFirstSector op)) as [k2 E2].
    rewrite E1, E2 in Hl.
    destruct (wrap_shift (newLastSector op - origFirstSector op - k1 * 2 ^ 64 + 1))
      as [k3 E3].
    destruct (wrap_shift (origLastSector op - origFirstSector op - k2 * 2 ^ 64 + 1))
      as [k4 E4].
    rewrite E3, E4 in Hl.
    unfold QInt64.in_range, QInt64.min_signed, QInt64.max_signed in *.
    change (2 ^ 64) with 18446744073709551616 in *.
    change (2 ^ 63) with 9223372036854775808 in *.
    lia.
  - unfold newLength, origLength. rewrite Hf, Hl. reflexivity.
Qed.


(** ** The constructor *)

Lemma resizeAction_sectors (op op' : ResizeOperation) :
  sectors op = sectors op' -> resizeAction op = resizeAction op'.
Proof.
  unfold sectors, resizeAction, newLength, origLength. intros E.
  injection E as E1 E2 E3 E4. rewrite E1, E2, E3, E4. reflexivity.
Qed.

Lemma newLength_sectors (op op' : ResizeOperation) :
  sectors op = sectors op' -> newLength op = newLength op'.
Proof.
  unfold sectors, newLength. intros E.
  injection E as E1 E2 E3 E4. rewrite E3, E4. reflexivity.
Qed.

Lemma newFirstSector_sectors (op op' : ResizeOperation) :
  sectors op = sectors op' -> newFirstSector op = newFirstSector op'.
Proof. unfold sectors. intros E. injection E as E1 E2 E3 E4. exact E3. Qed.

Section Compose.

Variable p : Partition.

Lemma composeShrink_sectors op : sectors (composeShrink p op) = sectors op.
Proof. unfold composeShrink. destruct (ResizeAction.test _ _); reflexivity. Qed.

Lemma composeMove_sectors op : sectors (composeMove p op) = sectors op.
Proof. unfold composeMove. destruct (_ || _); reflexivity. Qed.

Lemma composeGrow_sectors op : sectors (composeGrow p op) = sectors op.
Proof. unfold composeGrow. destruct (ResizeAction.test _ _); reflexivity. Qed.

Lemma composeShrink_jobs op :
  jobs (composeShrink p op)
  = jobs op ++ phaseJobs (ResizeAction.test (resizeAction op) ResizeAction.Shrink)
                 [ResizeFileSystemJob (newLength op);
                  SetPartGeometryJob (firstSector p) (newLength op)].
Proof.
  unfold composeShrink. destruct (ResizeAction.test _ _); cbn.
  - rewrite <- app_assoc. reflexivity.
  - rewrite app_nil_r. reflexivity.
Qed.

Lemma composeMove_jobs op :
  jobs (composeMove p op)
  = jobs op ++ phaseJobs (ResizeAction.test (resizeAction op) ResizeAction.MoveLeft
                          || ResizeAction.test (resizeAction op) ResizeAction.MoveRight)
                 [SetPartGeometryJob (newFirstSector op)
                    (if ResizeAction.test (resizeAction op) ResizeAction.Shrink
                     then newLength op else length p);
                  MoveFileSystemJob (newFirstSector op)].
Proof.
  unfold composeMove. destruct (_ || _); cbn.
  - rewrite <- app_assoc. reflexivity.
  - rewrite app_nil_r. reflexivity.
Qed.

Lemma composeGrow_jobs op :
  jobs (composeGrow p op)
  = jobs op ++ phaseJobs (ResizeAction.test (resizeAction op) ResizeAction.Grow)
                 [SetPartGeometryJob (newFirstSector op) (newLength op);
                  ResizeFileSystemJob (newLength op)].
Proof.
  unfold composeGrow. destruct (ResizeAction.test _ _); cbn.
  - rewrite <- app_assoc. reflexivity.
  - rewrite app_nil_r. reflexivity.
Qed.

End Compose.

Lemma ResizeOperation_new_sectors p newfirst newlast :
  sectors (ResizeOperation_new p newfirst newlast)
  = (firstSector p, lastSector p, newfirst, newlast).
Proof.
  unfold ResizeOperation_new.
  destruct (has (roles p) Extended).
  - destruct (canCheck p); reflexivity.
  - assert (E : forall op, sectors (if canCheck p then addJobOf (set_checkResizedJob op CheckFileSystemJob) checkResizedJob
                                    else set_checkResizedJob op CheckFileSystemJob) = sectors op)
      by (intros op; destruct (canCheck p); reflexivity).
    rewrite E, composeGrow_sectors, composeMove_sectors, composeShrink_sectors.
    destruct (canCheck p); reflexivity.
Qed.

(** C5.  For a partition that is not Extended the constructor composes,
    in this order: the pre-check job (when the file system can be
    checked); shrink-filesystem then shrink-geometry (exactly when the
    Shrink bit is set); move-geometry then move-filesystem (exactly when
    MoveLeft or MoveRight is set); grow-geometry then grow-filesystem
    (exactly when the Grow bit is set); the post-check job (when the file
    system can be checked). *)
Theorem constructor_job_order (p : Partition) (newfirst newlast : Z) :
  has (roles p) Extended = false ->
  let op := ResizeOperation_new p newfirst newlast in
  let a := resizeAction op in
  jobs op
  = phaseJobs (canCheck p) [CheckFileSystemJob]
    ++ phaseJobs (ResizeAction.test a ResizeAction.Shrink)
         [ResizeFileSystemJob (newLength op);
          SetPartGeometryJob (firstSector p) (newLength op)]
    ++ phaseJobs (ResizeAction.test a ResizeAction.MoveLeft
                  || ResizeAction.test a ResizeAction.MoveRight)
         [SetPartGeometryJob newfirst
            (if ResizeAction.test a ResizeAction.Shrink then newLength op else length p);
          MoveFileSystemJob newfirst]
    ++ phaseJobs (ResizeAction.test a ResizeAction.Grow)
         [SetPartGeometryJob newfirst (newLength op);
          ResizeFileSystemJob (newLength op)]
    ++ phaseJobs (canCheck p) [CheckFileSystemJob].
Proof.
  intros Hext op a.
  pose proof (ResizeOperation_new_sectors p newfirst newlast) as Hs.
  fold op in Hs.
  set (op0 := if canCheck p then addJob (init p newfirst newlast)
                                  (checkOriginalJob (init p newfirst newlast))
              else init p newfirst newlast).
  assert (Hs0 : sectors op0 = sectors op)
    by (rewrite Hs; unfold op0; destruct (canCheck p); reflexivity).
  assert (Hj0 : jobs op0 = phaseJobs (canCheck p) [CheckFileSystemJob])
    by (unfold op0; destruct (canCheck p); reflexivity).
  assert (Hs1 : sectors (composeShrink p op0) = sectors op)
    by (rewrite composeShrink_sectors; exact Hs0).
  assert (Hs2 : sectors (composeMove p (composeShrink p op0)) = sectors op)
    by (rewrite composeMove_sectors; exact Hs1).
  assert (Hjobs : jobs op
    = jobs (composeGrow p (composeMove p (composeShrink p op0)))
      ++ phaseJobs (canCheck p) [CheckFileSystemJob]).
  { unfold op, ResizeOperation_new. rewrite Hext. fold op0.
    destruct (canCheck p); cbn; [reflexivity | rewrite app_nil_r; reflexivity]. }
  rewrite Hjobs, composeGrow_jobs, composeMove_jobs, composeShrink_jobs, Hj0.
  rewrite (resizeAction_sectors _ _ Hs2), (resizeAction_sectors _ _ Hs1),
    (resizeAction_sectors _ _ Hs0).
  rewrite (newLength_sectors _ _ Hs2), (newLength_sectors _ _ Hs1),
    (newLength_sectors _ _ Hs0).
  rewrite (newFirstSector_sectors _ _ Hs2), (newFirstSector_sectors _ _ Hs1).
  assert (Hnf : newFirstSector op = newfirst)
    by (unfold sectors in Hs; injection Hs; auto).
  rewrite Hnf. fold a. rewrite <- !app_assoc. reflexivity.
Qed.

(** Witness of C5: shrinking and moving sectors 1000..1999 to 1200..1699. *)
Lemma constructor_job_order_witness :
  has (roles Sample.primary) Extended = false
  /\ jobs (ResizeOperation_new Sample.primary 1200 1699)
     = [CheckFileSystemJob;
        ResizeFileSystemJob 500; SetPartGeometryJob 1000 500;
        SetPartGeometryJob 1200 500; MoveFileSystemJob 1200;
        CheckFileSystemJob].
Proof.
  split; [reflexivity |].
  etransitivity; [exact (constructor_job_order Sample.primary 1200 1699 eq_refl) |].
  vm_compute. reflexivity.
Defined.

(** The operation object the constructor builds, field by field. *)

Ltac simpl_record :=
  cbv beta iota zeta delta
    [addJobOf addJob set_jobs set_moveExtendedJob set_shrinkResizeJob
     set_shrinkSetGeomJob set_moveSetGeomJob set_moveFileSystemJob set_growResizeJob
     set_growSetGeomJob set_checkResizedJob phaseJobs
     origFirstSector origLastSector newFirstSector newLastSector checkOriginalJob
     moveExtendedJob shrinkResizeJob shrinkSetGeomJob moveSetGeomJob moveFileSystemJob
     growResizeJob growSetGeomJob checkResizedJob jobs newLength resizeAction origLength].

Section ComposeRecords.

Variable p : Partition.

Lemma composeShrink_eq op :
  composeShrink p op
  = let t := ResizeAction.test (resizeAction op) ResizeAction.Shrink in
    mkResizeOperation (origFirstSector op) (origLastSector op) (newFirstSector op)
      (newLastSector op) (checkOriginalJob op) (moveExtendedJob op)
      (if t then Some (ResizeFileSystemJob (newLength op)) else shrinkResizeJob op)
      (if t then Some (SetPartGeometryJob (firstSector p) (newLength op))
       else shrinkSetGeomJob op)
      (moveSetGeomJob op) (moveFileSystemJob op) (growResizeJob op)
      (growSetGeomJob op) (checkResizedJob op)
      (jobs op ++ phaseJobs t [ResizeFileSystemJob (newLength op);
                               SetPartGeometryJob (firstSector p) (newLength op)]).
Proof.
  unfold composeShrink. destruct (ResizeAction.test _ _); destruct op as [o1 o2 n1 n2 c me sr sg mg mf gr gg cr js]; simpl_record.
  - rewrite <- app_assoc. reflexivity.
  - rewrite app_nil_r. reflexivity.
Qed.

Lemma composeMove_eq op :
  composeMove p op
  = let t := ResizeAction.test (resizeAction op) ResizeAction.MoveLeft
             || ResizeAction.test (resizeAction op) ResizeAction.MoveRight in
    let cur := if ResizeAction.test (resizeAction op) ResizeAction.Shrink
               then newLength op else length p in
    mkResizeOperation (origFirstSector op) (origLastSector op) (newFirstSector op)
      (newLastSector op) (checkOriginalJob op) (moveExtendedJob op)
      (shrinkResizeJob op) (shrinkSetGeomJob op)
      (if t then Some (SetPartGeometryJob (newFirstSector op) cur) else moveSetGeomJob op)
      (if t then Some (MoveFileSystemJob (newFirstSector op)) else moveFileSystemJob op)
      (growResizeJob op) (growSetGeomJob op) (checkResizedJob op)
      (jobs op ++ phaseJobs t [SetPartGeometryJob (newFirstSector op) cur;
                               MoveFileSystemJob (newFirstSector op)]).
Proof.
  unfold composeMove. destruct (_ || _); destruct op as [o1 o2 n1 n2 c me sr sg mg mf gr gg cr js]; simpl_record.
  - rewrite <- app_assoc. reflexivity.
  - rewrite app_nil_r. reflexivity.
Qed.

Lemma composeGrow_eq op :
  composeGrow p op
  = let t := ResizeAction.test (resizeAction op) ResizeAction.Grow in
    mkResizeOperation (origFirstSector op) (origLastSector op) (newFirstSector op)
      (newLastSector op) (checkOriginalJob op) (moveExtendedJob op)
      (shrinkResizeJob op) (shrinkSetGeomJob op) (moveSetGeomJob op)
      (moveFileSystemJob op)
      (if t then Some (ResizeFileSystemJob (newLength op)) else growResizeJob op)
      (if t then Some (SetPartGeometryJob (newFirstSector op) (newLength op))
       else growSetGeomJob op)
      (checkResizedJob op)
      (jobs op ++ phaseJobs t [SetPartGeometryJob (newFirstSector op) (newLength op);
                               ResizeFileSystemJob (newLength op)]).
Proof.
  unfold composeGrow. destruct (ResizeAction.test _ _); destruct op as [o1 o2 n1 n2 c me sr sg mg mf gr gg cr js]; simpl_record.
  - rewrite <- app_assoc. reflexivity.
  - rewrite app_nil_r. reflexivity.
Qed.

End ComposeRecords.

Lemma ResizeOperation_new_nonExtended (p : Partition) (nf nl : Z) :
  has (roles p) Extended = false ->
  let a := resizeAction (init p nf nl) in
  let len := newLength (init p nf nl) in
  let mv := ResizeAction.test a ResizeAction.MoveLeft
            || ResizeAction.test a ResizeAction.MoveRight in
  let cur := if ResizeAction.test a ResizeAction.Shrink then len else length p in
  ResizeOperation_new p nf nl
  = mkResizeOperation (firstSector p) (lastSector p) nf nl CheckFileSystemJob None
      (if ResizeAction.test a ResizeAction.Shrink
       then Some (ResizeFileSystemJob len) else None)
      (if ResizeAction.test a ResizeAction.Shrink
       then Some (SetPartGeometryJob (firstSector p) len) else None)
      (if mv then Some (SetPartGeometryJob nf cur) else None)
      (if mv then Some (MoveFileSystemJob nf) else None)
      (if ResizeAction.test a ResizeAction.Grow
       then Some (ResizeFileSystemJob len) else None)
      (if ResizeAction.test a ResizeAction.Grow
       then Some (SetPartGeometryJob nf len) else None)
      (Some CheckFileSystemJob)
      (phaseJobs (canCheck p) [CheckFileSystemJob]
       ++ phaseJobs (ResizeAction.test a ResizeAction.Shrink)
            [ResizeFileSystemJob len; SetPartGeometryJob (firstSector p) len]
       ++ phaseJobs mv [SetPartGeometryJob nf cur; MoveFileSystemJob nf]
       ++ phaseJobs (ResizeAction.test a ResizeAction.Grow)
            [SetPartGeometryJob nf len; ResizeFileSystemJob len]
       ++ phaseJobs (canCheck p) [CheckFileSystemJob]).
Proof.
  intros Hext a len mv cur.
  unfold ResizeOperation_new. rewrite Hext.
  set (op0 := if canCheck p then addJob (init p nf nl) (checkOriginalJob (init p nf nl))
              else init p nf nl).
  assert (Hs0 : sectors op0 = sectors (init p nf nl))
    by (unfold op0; destruct (canCheck p); reflexivity).
  assert (Hs1 : sectors (composeShrink p op0) = sectors (init p nf nl))
    by (rewrite composeShrink_sectors; exact Hs0).
  assert (Hs2 : sectors (composeMove p (composeShrink p op0)) = sectors (init p nf nl))
    by (rewrite composeMove_sectors; exact Hs1).
  rewrite composeGrow_eq. cbv zeta.
  rewrite (resizeAction_sectors _ _ Hs2), (newLength_sectors _ _ Hs2).
  rewrite composeMove_eq. cbv zeta.
  cbn [origFirstSector origLastSector newFirstSector newLastSector checkOriginalJob
       moveExtendedJob shrinkResizeJob shrinkSetGeomJob moveSetGeomJob moveFileSystemJob
       growResizeJob growSetGeomJob checkResizedJob jobs].
  rewrite (resizeAction_sectors _ _ Hs1), (newLength_sectors _ _ Hs1).
  rewrite composeShrink_eq. cbv zeta.
  cbn [origFirstSector origLastSector newFirstSector newLastSector checkOriginalJob
       moveExtendedJob shrinkResizeJob shrinkSetGeomJob moveSetGeomJob moveFileSystemJob
       growResizeJob growSetGeomJob checkResizedJob jobs].
  rewrite (resizeAction_sectors _ _ Hs0), (newLength_sectors _ _ Hs0).
  fold a len. fold mv. fold cur.
  clearbody a len mv cur. clear Hs0 Hs1 Hs2. subst op0.
  destruct (canCheck p); unfold init; simpl_record;
    rewrite <- ?app_assoc, ?app_nil_r; reflexivity.
Qed.

Lemma ResizeOperation_new_Extended (p : Partition) (nf nl : Z) :
  has (roles p) Extended = true ->
  ResizeOperation_new p nf nl
  = mkResizeOperation (firstSector p) (lastSector p) nf nl CheckFileSystemJob
      (Some (SetPartGeometryJob nf (newLength (init p nf nl))))
      None None None None None None None
      (phaseJobs (canCheck p) [CheckFileSystemJob]
       ++ [SetPartGeometryJob nf (newLength (init p nf nl))]).
Proof.
  intros Hext. unfold ResizeOperation_new. rewrite Hext.
  destruct (canCheck p); reflexivity.
Qed.

Lemma resizeAction_new (p : Partition) (nf nl : Z) :
  resizeAction (ResizeOperation_new p nf nl) = resizeAction (init p nf nl).
Proof. apply resizeAction_sectors. apply ResizeOperation_new_sectors. Qed.

Lemma newLength_new (p : Partition) (nf nl : Z) :
  newLength (ResizeOperation_new p nf nl) = newLength (init p nf nl).
Proof. apply newLength_sectors. apply ResizeOperation_new_sectors. Qed.

(** ** Execution: how each phase evaluates *)

Ltac unfold_exec :=
  unfold execute, checkResized, checkOriginal, phases, grow, move, shrink, andThen,
    presentAndFails, deref, setStatus, line, runJob, getPartition, bind, ret.

Section ExecuteFacts.

Context {W : Type} `{Backend W}.

Lemma shrink_fs_fails (op : ResizeOperation) (st : Exec W) (j : Job) (w1 : W) :
  shrinkResizeJob op = Some j ->
  run j (world st) = (false, w1) ->
  shrink op st
  = Some (false, mkExec w1 (status st) (ran st ++ [(j, false)])
                        (report st ++ [CouldNotShrinkFileSystem])).
Proof.
  intros Hj Hrun. unfold_exec. rewrite Hj. cbn. rewrite Hrun. reflexivity.
Qed.

Lemma shrink_geom_fails (op : ResizeOperation) (st : Exec W) (j g : Job) (w1 w2 : W) :
  shrinkResizeJob op = Some j ->
  shrinkSetGeomJob op = Some g ->
  run j (world st) = (true, w1) ->
  run g w1 = (false, w2) ->
  shrink op st
  = Some (false, mkExec w2 (status st) (ran st ++ [(j, true); (g, false)])
                        (report st ++ [CouldNotShrinkPartition])).
Proof.
  intros Hj Hg Hrun1 Hrun2. unfold_exec. rewrite Hj, Hg. cbn.
  rewrite Hrun1. cbn. rewrite Hrun2. cbn. rewrite <- app_assoc. reflexivity.
Qed.

Lemma move_fs_fails (op : ResizeOperation) (st : Exec W) (g m : Job) (w1 w2 w3 : W)
      (restored : bool) :
  moveSetGeomJob op = Some g ->
  moveFileSystemJob op = Some m ->
  run g (world st) = (true, w1) ->
  run m w1 = (false, w2) ->
  run (SetPartGeometryJob (firstSector (partition (world st))) (length (partition w2))) w2
  = (restored, w3) ->
  move op st
  = Some (false,
          mkExec w3 (status st)
            (ran st ++ [(g, true); (m, false);
                        (SetPartGeometryJob (firstSector (partition (world st)))
                                            (length (partition w2)), restored)])
            (report st ++ MovingFileSystemFailedRollingBack
                          :: (if restored then [] else [MovingBackFailed]))).
Proof.
  intros Hg Hm Hrun1 Hrun2 Hrun3. unfold_exec. rewrite Hg, Hm. cbn.
  rewrite Hrun1. cbn. rewrite Hrun2. cbn. rewrite Hrun3.
  destruct restored; cbn; rewrite <- !app_assoc; reflexivity.
Qed.

Lemma grow_fs_fails (op : ResizeOperation) (st : Exec W) (g r : Job) (w1 w2 w3 : W)
      (restored : bool) :
  growSetGeomJob op = Some g ->
  growResizeJob op = Some r ->
  run g (world st) = (true, w1) ->
  run r w1 = (false, w2) ->
  run (SetPartGeometryJob (firstSector (partition w2)) (length (partition (world st)))) w2
  = (restored, w3) ->
  grow op st
  = Some (false,
          mkExec w3 (status st)
            (ran st ++ [(g, true); (r, false);
                        (SetPartGeometryJob (firstSector (partition w2))
                                            (length (partition (world st))), restored)])
            (report st ++ CouldNotGrowFileSystem
                          :: (if restored then [] else [CouldNotRestoreOldSize]))).
Proof.
  intros Hg Hr Hrun1 Hrun2 Hrun3. unfold_exec. rewrite Hg, Hr. cbn.
  rewrite Hrun1. cbn. rewrite Hrun2. cbn. rewrite Hrun3.
  destruct restored; cbn; rewrite <- !app_assoc; reflexivity.
Qed.

(** The three phases in sequence. *)

Lemma phases_shrink_fails (op : ResizeOperation) (st st1 : Exec W) :
  shrink op st = Some (false, st1) -> phases op st = Some (false, st1).
Proof. intros Hs. unfold phases, andThen, bind. rewrite Hs. reflexivity. Qed.

Lemma phases_move_fails (op : ResizeOperation) (st st1 st2 : Exec W) :
  shrink op st = Some (true, st1) ->
  move op st1 = Some (false, st2) ->
  phases op st = Some (false, st2).
Proof.
  intros Hs Hm. unfold phases, andThen, bind. rewrite Hs, Hm. reflexivity.
Qed.

Lemma phases_grow (op : ResizeOperation) (st st1 st2 : Exec W) :
  shrink op st = Some (true, st1) ->
  move op st1 = Some (true, st2) ->
  phases op st = grow op st2.
Proof.
  intros Hs Hm. unfold phases, andThen, bind. rewrite Hs, Hm. reflexivity.
Qed.

(** [execute] around the phases. *)

Lemma execute_phases_fail (op : ResizeOperation) (st st1 st2 : Exec W) :
  checkOriginal op st = Some (true, st1) ->
  moveExtendedJob op = None ->
  phases op st1 = Some (false, st2) ->
  execute op st
  = Some (false, mkExec (world st2) StatusError (ran st2)
                        (report st2 ++ [ResizingMovingFailed])).
Proof.
  intros Hc He Hp. unfold execute, bind. rewrite Hc, He, Hp. reflexivity.
Qed.

Lemma execute_phases_pass (op : ResizeOperation) (st st1 st2 st3 : Exec W) (rval : bool) :
  checkOriginal op st = Some (true, st1) ->
  moveExtendedJob op = None ->
  phases op st1 = Some (true, st2) ->
  checkResized op st2 = Some (rval, st3) ->
  execute op st
  = Some (rval, mkExec (world st3)
                       (if rval then StatusFinishedSuccess else StatusError)
                       (ran st3) (report st3)).
Proof.
  intros Hc He Hp Hr. unfold execute, bind. rewrite Hc, He, Hp, Hr. reflexivity.
Qed.

Lemma execute_check_fails (op : ResizeOperation) (st st1 : Exec W) :
  checkOriginal op st = Some (false, st1) ->
  execute op st
  = Some (false, mkExec (world st1) StatusError (ran st1)
                        (report st1 ++ [CheckBeforeFailed])).
Proof. intros Hc. unfold execute, bind. rewrite Hc. reflexivity. Qed.

(** What the pre-check does to the state. *)
Lemma checkOriginal_cases (op : ResizeOperation) (st : Exec W) :
  checkOriginal op st
  = if canCheck (partition (world st)) then
      Some (fst (run (checkOriginalJob op) (world st)),
            mkExec (snd (run (checkOriginalJob op) (world st))) (status st)
                   (ran st ++ [(checkOriginalJob op,
                                fst (run (checkOriginalJob op) (world st)))])
                   (report st))
    else Some (true, st).
Proof.
  unfold_exec. destruct (canCheck (partition (world st))); [| reflexivity].
  destruct (run (checkOriginalJob op) (world st)); reflexivity.
Qed.

(** The status [execute] leaves is decided by its result alone. *)
Lemma execute_status (op : ResizeOperation) (st st' : Exec W) (rval : bool) :
  execute op st = Some (rval, st') ->
  status st' = if rval then StatusFinishedSuccess else StatusError.
Proof.
  unfold execute. unfold bind at 1.
  destruct (checkOriginal op st) as [[c st1] |]; [| discriminate].
  unfold bind at 1.
  match goal with
  | |- match ?m st1 with _ => _ end = _ -> _ =>
      destruct (m st1) as [[r st2] |]; [| discriminate]
  end.
  unfold bind, setStatus, ret. intros E. injection E as <- <-. reflexivity.
Qed.

End ExecuteFacts.

(** ** Extended partitions *)

Section ExtendedExecution.

Context {W : Type} `{Backend W}.

Lemma execute_moveExtended (op : ResizeOperation) (g : Job) (st : Exec W) :
  moveExtendedJob op = Some g ->
  exists rval st',
    execute op st = Some (rval, st')
    /\ status st' = (if rval then StatusFinishedSuccess else StatusError)
    /\ (ran st' = ran st
                  ++ map (fun j => (j, true))
                       (phaseJobs (canCheck (partition (world st))) [checkOriginalJob op])
                  ++ [(g, rval)]
        \/ (canCheck (partition (world st)) = true /\ rval = false
            /\ ran st' = ran st ++ [(checkOriginalJob op, false)])).
Proof.
  intros Hg. unfold execute. unfold bind at 1. rewrite checkOriginal_cases.
  destruct (canCheck (partition (world st))) eqn:Hc.
  - destruct (run (checkOriginalJob op) (world st)) as [[] w1] eqn:Hrun; cbn [fst snd].
    + rewrite Hg. unfold_exec. cbn.
      destruct (run g w1) as [[] w2]; cbn; eexists; eexists;
        (split; [reflexivity |]); (split; [reflexivity |]);
        left; cbn; rewrite <- app_assoc; reflexivity.
    + unfold_exec. cbn. eexists; eexists.
      split; [reflexivity |]. split; [reflexivity |]. right. auto.
  - rewrite Hg. unfold_exec. cbn.
    destruct (run g (world st)) as [[] w2]; cbn; eexists; eexists;
      (split; [reflexivity |]); (split; [reflexivity |]); left; reflexivity.
Qed.

End ExtendedExecution.

(** C3.  An Extended partition carries no file system, so it cannot be
    checked, neither when the operation is created nor when it is
    executed.  For every such partition the constructor composes exactly
    one job, the geometry job for the requested first sector and length,
    and no file system job (no resize, move or check job); [execute] runs
    that single geometry job and nothing else, and its result is the
    result of the operation. *)
Theorem extended_single_geometry_job {W : Type} `{Backend W}
        (p : Partition) (nf nl : Z) (st : Exec W) :
  has (roles p) Extended = true ->
  canCheck p = false ->
  canCheck (partition (world st)) = false ->
  let op := ResizeOperation_new p nf nl in
  let geom := SetPartGeometryJob nf (newLength op) in
  jobs op = [geom]
  /\ List.length (filter isSetPartGeometryJob (jobs op)) = 1%nat
  /\ filter isFileSystemJob (jobs op) = []
  /\ execute op st
     = Some (fst (run geom (world st)),
             mkExec (snd (run geom (world st)))
                    (if fst (run geom (world st))
                     then StatusFinishedSuccess else StatusError)
                    (ran st ++ [(geom, fst (run geom (world st)))])
                    (report st ++ if fst (run geom (world st)) then []
                                  else [MovingExtendedFailed])).
Proof.
  intros Hext Hcheck Hcheck' op geom.
  assert (Hop : op = mkResizeOperation (firstSector p) (lastSector p) nf nl
                       CheckFileSystemJob (Some geom)
                       None None None None None None None [geom]).
  { unfold geom, op. rewrite newLength_new.
    rewrite (ResizeOperation_new_Extended p nf nl Hext), Hcheck. reflexivity. }
  split; [rewrite Hop; reflexivity |].
  split; [rewrite Hop; reflexivity |].
  split; [rewrite Hop; reflexivity |].
  assert (Hg : moveExtendedJob op = Some geom) by (rewrite Hop; reflexivity).
  unfold execute. unfold bind at 1. rewrite checkOriginal_cases, Hcheck', Hg.
  unfold_exec. destruct (run geom (world st)) as [[] w1]; cbn;
    rewrite ?app_nil_r; reflexivity.
Qed.

(** Witness of C3: the extended partition of the samples, resized to
    sectors 4000..9999 by a backend whose jobs succeed. *)
Lemma extended_single_geometry_job_witness :
  jobs (ResizeOperation_new Sample.extended 4000 9999) = [SetPartGeometryJob 4000 6000]
  /\ execute (ResizeOperation_new Sample.extended 4000 9999)
             (start (Scripted.mk Sample.extended []))
     = Some (true,
             mkExec (Scripted.mk (setLastSector Sample.extended 9999) [])
                    StatusFinishedSuccess [(SetPartGeometryJob 4000 6000, true)] []).
Proof.
  destruct (@extended_single_geometry_job Scripted.t Scripted_Backend
              Sample.extended 4000 9999
              (start (Scripted.mk Sample.extended [])) eq_refl eq_refl eq_refl)
    as (Hjobs & _ & _ & Hexec).
  split.
  - etransitivity; [exact Hjobs |]. vm_compute. reflexivity.
  - etransitivity; [exact Hexec |]. vm_compute. reflexivity.
Defined.

(** ** The post-check *)

(** C2 (as the code has it).  When the pre-check passed or was skipped,
    all phases succeeded and the post-check job fails, [execute] returns
    [false] and the status is the error status: the result of the
    post-check is the result of the operation. *)
Theorem postcheck_failure_is_error {W : Type} `{Backend W}
        (op : ResizeOperation) (st st1 st2 : Exec W) (j : Job) (w3 : W) :
  checkOriginal op st = Some (true, st1) ->
  moveExtendedJob op = None ->
  phases op st1 = Some (true, st2) ->
  canCheck (partition (world st2)) = true ->
  checkResizedJob op = Some j ->
  run j (world st2) = (false, w3) ->
  execute op st
  = Some (false, mkExec w3 StatusError (ran st2 ++ [(j, false)])
                        (report st2 ++ [CheckAfterFailed])).
Proof.
  intros Hc He Hp Hcan Hj Hrun.
  rewrite (execute_phases_pass op st st1 st2
             (mkExec w3 (status st2) (ran st2 ++ [(j, false)])
                     (report st2 ++ [CheckAfterFailed])) false Hc He Hp).
  - reflexivity.
  - unfold_exec. rewrite Hcan, Hj. rewrite Hrun. reflexivity.
Qed.

(** The shrink-only scenario: sectors 1000..1999 to 1000..1499, every job
    succeeding except the post-check. *)
Lemma postcheck_failure_is_error_witness :
  execute (ResizeOperation_new Sample.primary 1000 1499)
          (start (Scripted.mk Sample.primary [true; true; true; false]))
  = Some (false,
          mkExec (Scripted.mk (setLastSector Sample.primary 1499) []) StatusError
                 ([(CheckFileSystemJob, true); (ResizeFileSystemJob 500, true);
                   (SetPartGeometryJob 1000 500, true)] ++ [(CheckFileSystemJob, false)])
                 ([] ++ [CheckAfterFailed])).
Proof.
  refine (postcheck_failure_is_error
            (ResizeOperation_new Sample.primary 1000 1499)
            (start (Scripted.mk Sample.primary [true; true; true; false]))
            (mkExec (Scripted.mk Sample.primary [true; true; false]) StatusRunning
                    [(CheckFileSystemJob, true)] [])
            (mkExec (Scripted.mk (setLastSector Sample.primary 1499) [false]) StatusRunning
                    [(CheckFileSystemJob, true); (ResizeFileSystemJob 500, true);
                     (SetPartGeometryJob 1000 500, true)] [])
            CheckFileSystemJob
            (Scripted.mk (setLastSector Sample.primary 1499) [])
            _ _ _ _ _ _); vm_compute; reflexivity.
Defined.

(** Counterexample to C2 as stated: in that scenario the status is the
    error status, not the warning status, and [execute] returns [false]. *)
Lemma postcheck_warning_counterexample :
  execute (ResizeOperation_new Sample.primary 1000 1499)
          (start (Scripted.mk Sample.primary [true; true; true; false]))
  = Some (false,
          mkExec (Scripted.mk (setLastSector Sample.primary 1499) []) StatusError
                 [(CheckFileSystemJob, true); (ResizeFileSystemJob 500, true);
                  (SetPartGeometryJob 1000 500, true); (CheckFileSystemJob, false)]
                 [CheckAfterFailed])
  /\ ~ (exists st',
          execute (ResizeOperation_new Sample.primary 1000 1499)
                  (start (Scripted.mk Sample.primary [true; true; true; false]))
          = Some (true, st')
          /\ status st' = StatusFinishedWarning).
Proof.
  assert (E : execute (ResizeOperation_new Sample.primary 1000 1499)
                (start (Scripted.mk Sample.primary [true; true; true; false]))
              = Some (false,
                      mkExec (Scripted.mk (setLastSector Sample.primary 1499) [])
                        StatusError
                        [(CheckFileSystemJob, true); (ResizeFileSystemJob 500, true);
                         (SetPartGeometryJob 1000 500, true); (CheckFileSystemJob, false)]
                        [CheckAfterFailed]))
    by (vm_compute; reflexivity).
  split; [exact E |].
  intros (st' & E' & _). rewrite E in E'. discriminate.
Qed.

(** ** Failures of the shrink phase *)

(** The slots of an operation on a partition that is not Extended and
    that shrinks. *)
Lemma shrink_slots (p : Partition) (nf nl : Z) :
  has (roles p) Extended = false ->
  let op := ResizeOperation_new p nf nl in
  ResizeAction.test (resizeAction op) ResizeAction.Shrink = true ->
  checkOriginalJob op = CheckFileSystemJob
  /\ moveExtendedJob op = None
  /\ shrinkResizeJob op = Some (ResizeFileSystemJob (newLength op))
  /\ shrinkSetGeomJob op = Some (SetPartGeometryJob (firstSector p) (newLength op)).
Proof.
  intros Hext op Hshrink. unfold op in *.
  rewrite resizeAction_new in Hshrink. rewrite newLength_new.
  rewrite (ResizeOperation_new_nonExtended p nf nl Hext). cbv zeta.
  cbn [checkOriginalJob moveExtendedJob shrinkResizeJob shrinkSetGeomJob].
  rewrite Hshrink. auto.
Qed.

Lemma Scripted_frame (j : Job) (w : Scripted.t) :
  isSetPartGeometryJob j = false ->
  geometry (partition (snd (run j w))) = geometry (partition w).
Proof.
  destruct j; try discriminate; intros _; cbn; unfold Scripted.step;
    destruct (Scripted.script w) as [| [] rest]; reflexivity.
Qed.

(** C6.  On a partition that is not Extended, with the Shrink bit set and
    the pre-check passed or skipped: if the shrink-filesystem job fails,
    it is the last job that runs, no geometry job has run, the status is
    the error status, and (geometry being written by geometry jobs only)
    the sector range of the partition is the one [execute] started with;
    if the shrink-geometry job fails after the shrink-filesystem job
    succeeded, it is the last job that runs: no job undoes the shrinking
    of the file system, the move and grow phases do not run, and the
    status is the error status. *)
Theorem shrink_failure_no_rollback {W : Type} `{Backend W}
        (p : Partition) (nf nl : Z) (st st1 : Exec W) :
  has (roles p) Extended = false ->
  let op := ResizeOperation_new p nf nl in
  let fsJob := ResizeFileSystemJob (newLength op) in
  let geomJob := SetPartGeometryJob (firstSector p) (newLength op) in
  ResizeAction.test (resizeAction op) ResizeAction.Shrink = true ->
  checkOriginal op st = Some (true, st1) ->
  jobsRun (ran st1)
  = jobsRun (ran st) ++ phaseJobs (canCheck (partition (world st))) [CheckFileSystemJob]
  /\ (forall w1 : W,
        run fsJob (world st1) = (false, w1) ->
        execute op st
        = Some (false, mkExec w1 StatusError (ran st1 ++ [(fsJob, false)])
                              (report st1 ++ [CouldNotShrinkFileSystem;
                                              ResizingMovingFailed]))
        /\ filter isSetPartGeometryJob
             (phaseJobs (canCheck (partition (world st))) [CheckFileSystemJob] ++ [fsJob])
           = []
        /\ ((forall j w, isSetPartGeometryJob j = false ->
                         geometry (partition (snd (run j w))) = geometry (partition w)) ->
            geometry (partition w1) = geometry (partition (world st))))
  /\ (forall w1 w2 : W,
        run fsJob (world st1) = (true, w1) ->
        run geomJob w1 = (false, w2) ->
        execute op st
        = Some (false, mkExec w2 StatusError
                              (ran st1 ++ [(fsJob, true); (geomJob, false)])
                              (report st1 ++ [CouldNotShrinkPartition;
                                              ResizingMovingFailed]))).
Proof.
  intros Hext op fsJob geomJob Hshrink Hpre.
  destruct (shrink_slots p nf nl Hext Hshrink) as (Hck & Hme & Hfs & Hgeom).
  fold op in Hck, Hme, Hfs, Hgeom. fold fsJob in Hfs. fold geomJob in Hgeom.
  pose proof Hpre as Hpre'. rewrite checkOriginal_cases, Hck in Hpre'.
  split; [| split].
  - destruct (canCheck (partition (world st))).
    + injection Hpre' as Hr <-. cbn [ran]. rewrite Hr.
      unfold jobsRun. rewrite map_app. reflexivity.
    + injection Hpre' as <-. cbn. rewrite app_nil_r. reflexivity.
  - intros w1 Hrun. split; [| split].
    + rewrite (execute_phases_fail op st st1 _ Hpre Hme
                 (phases_shrink_fails op st1 _ (shrink_fs_fails op st1 fsJob w1 Hfs Hrun))).
      cbn [world ran report]. rewrite <- app_assoc. reflexivity.
    + destruct (canCheck (partition (world st))); reflexivity.
    + intros Hframe.
      pose proof (Hframe fsJob (world st1) eq_refl) as H1. rewrite Hrun in H1.
      cbn [snd] in H1. rewrite H1.
      destruct (canCheck (partition (world st))).
      * injection Hpre' as _ <-. cbn [world]. apply Hframe. reflexivity.
      * injection Hpre' as <-. reflexivity.
  - intros w1 w2 Hrun1 Hrun2.
    rewrite (execute_phases_fail op st st1 _ Hpre Hme
               (phases_shrink_fails op st1 _
                  (shrink_geom_fails op st1 fsJob geomJob w1 w2 Hfs Hgeom Hrun1 Hrun2))).
    cbn [world ran report]. rewrite <- app_assoc. reflexivity.
Qed.

(** Witness of C6: sectors 1000..1999 to 1000..1499, the pre-check
    passing and the shrinking of the file system failing. *)
Lemma shrink_failure_no_rollback_witness :
  execute (ResizeOperation_new Sample.primary 1000 1499)
          (start (Scripted.mk Sample.primary [true; false]))
  = Some (false,
          mkExec (Scripted.mk Sample.primary []) StatusError
                 [(CheckFileSystemJob, true); (ResizeFileSystemJob 500, false)]
                 [CouldNotShrinkFileSystem; ResizingMovingFailed])
  /\ geometry (Scripted.target (Scripted.mk Sample.primary [])) = (1000, 1999).
Proof.
  assert (Hext : has (roles Sample.primary) Extended = false) by reflexivity.
  assert (Hshrink : ResizeAction.test
                      (resizeAction (ResizeOperation_new Sample.primary 1000 1499))
                      ResizeAction.Shrink = true)
    by (vm_compute; reflexivity).
  assert (Hpre : checkOriginal (ResizeOperation_new Sample.primary 1000 1499)
                   (start (Scripted.mk Sample.primary [true; false]))
                 = Some (true, mkExec (Scripted.mk Sample.primary [false]) StatusRunning
                                      [(CheckFileSystemJob, true)] []))
    by (vm_compute; reflexivity).
  destruct (shrink_failure_no_rollback Sample.primary 1000 1499 _ _ Hext Hshrink Hpre)
    as (_ & Hfs & _).
  destruct (Hfs (Scripted.mk Sample.primary [])) as (Hexec & _ & Hgeom);
    [vm_compute; reflexivity |].
  split.
  - etransitivity; [exact Hexec |]. vm_compute. reflexivity.
  - etransitivity; [exact (Hgeom Scripted_frame) |]. vm_compute. reflexivity.
Defined.

(** ** Rollback of the move and grow phases *)

(** C4.  With the pre-check passed or skipped: if in the move phase the
    geometry job succeeds and the move-filesystem job fails, a geometry
    job setting the first sector the partition had when the phase began
    (and the length it has now) runs next and is the last job, and the
    status is the error status whether or not that job succeeds; if in
    the grow phase the geometry job succeeds and the grow-filesystem job
    fails, a geometry job setting the length the partition had when the
    phase began (at its current first sector) runs next and is the last
    job, and the status is the error status whether or not that job
    succeeds. *)
Theorem content_failure_rolls_back {W : Type} `{Backend W}
        (op : ResizeOperation) (st st1 : Exec W) :
  checkOriginal op st = Some (true, st1) ->
  moveExtendedJob op = None ->
  (forall (st2 : Exec W) (g m : Job) (w1 w2 w3 : W) (restored : bool),
      shrink op st1 = Some (true, st2) ->
      moveSetGeomJob op = Some g ->
      moveFileSystemJob op = Some m ->
      run g (world st2) = (true, w1) ->
      run m w1 = (false, w2) ->
      let back := SetPartGeometryJob (firstSector (partition (world st2)))
                                     (length (partition w2)) in
      run back w2 = (restored, w3) ->
      exists st',
        execute op st = Some (false, st')
        /\ status st' = StatusError
        /\ world st' = w3
        /\ ran st' = ran st2 ++ [(g, true); (m, false); (back, restored)])
  /\ (forall (st2 st3 : Exec W) (g r : Job) (w1 w2 w3 : W) (restored : bool),
         shrink op st1 = Some (true, st2) ->
         move op st2 = Some (true, st3) ->
         growSetGeomJob op = Some g ->
         growResizeJob op = Some r ->
         run g (world st3) = (true, w1) ->
         run r w1 = (false, w2) ->
         let back := SetPartGeometryJob (firstSector (partition w2))
                                        (length (partition (world st3))) in
         run back w2 = (restored, w3) ->
         exists st',
           execute op st = Some (false, st')
           /\ status st' = StatusError
           /\ world st' = w3
           /\ ran st' = ran st3 ++ [(g, true); (r, false); (back, restored)]).
Proof.
  intros Hpre Hme. split.
  - intros st2 g m w1 w2 w3 restored Hs Hg Hm Hrun1 Hrun2 back Hrun3.
    pose proof (move_fs_fails op st2 g m w1 w2 w3 restored Hg Hm Hrun1 Hrun2 Hrun3)
      as Hmove.
    pose proof (phases_move_fails op st1 st2 _ Hs Hmove) as Hph.
    rewrite (execute_phases_fail op st st1 _ Hpre Hme Hph).
    eexists. split; [reflexivity |]. cbn. auto.
  - intros st2 st3 g r w1 w2 w3 restored Hs Hm Hg Hr Hrun1 Hrun2 back Hrun3.
    pose proof (grow_fs_fails op st3 g r w1 w2 w3 restored Hg Hr Hrun1 Hrun2 Hrun3)
      as Hgrow.
    pose proof (phases_grow op st1 st2 st3 Hs Hm) as Hph. rewrite Hgrow in Hph.
    rewrite (execute_phases_fail op st st1 _ Hpre Hme Hph).
    eexists. split; [reflexivity |]. cbn. auto.
Qed.

(** Witness of C4.  Moving sectors 1000..1999 to 500..1499 with the
    move-filesystem job failing: the partition is set back to first
    sector 1000.  Growing 1000..1999 to 1000..2999 with the
    grow-filesystem job and then the restoring job failing: the old length
    1000 was asked for, and the status is the error status. *)
Lemma content_failure_rolls_back_witness :
  (exists st',
      execute (ResizeOperation_new Sample.primary 500 1499)
              (start (Scripted.mk Sample.primary [true; true; false; true]))
      = Some (false, st')
      /\ status st' = StatusError
      /\ world st' = Scripted.mk Sample.primary []
      /\ ran st' = [(CheckFileSystemJob, true)]
                   ++ [(SetPartGeometryJob 500 1000, true); (MoveFileSystemJob 500, false);
                       (SetPartGeometryJob 1000 1000, true)])
  /\ (exists st',
         execute (ResizeOperation_new Sample.primary 1000 2999)
                 (start (Scripted.mk Sample.primary [true; true; false; false]))
         = Some (false, st')
         /\ status st' = StatusError
         /\ world st' = Scripted.mk (setLastSector Sample.primary 2999) []
         /\ ran st' = [(CheckFileSystemJob, true)]
                      ++ [(SetPartGeometryJob 1000 2000, true);
                          (ResizeFileSystemJob 2000, false);
                          (SetPartGeometryJob 1000 1000, false)]).
Proof.
  split.
  - assert (Hpre : checkOriginal (ResizeOperation_new Sample.primary 500 1499)
                     (start (Scripted.mk Sample.primary [true; true; false; true]))
                   = Some (true, mkExec (Scripted.mk Sample.primary [true; false; true])
                                        StatusRunning [(CheckFileSystemJob, true)] []))
      by (vm_compute; reflexivity).
    assert (Hme : moveExtendedJob (ResizeOperation_new Sample.primary 500 1499) = None)
      by (vm_compute; reflexivity).
    destruct (content_failure_rolls_back _ _ _ Hpre Hme) as [Hmove _].
    refine (Hmove (mkExec (Scripted.mk Sample.primary [true; false; true])
                          StatusRunning [(CheckFileSystemJob, true)] [])
                  (SetPartGeometryJob 500 1000) (MoveFileSystemJob 500)
                  (Scripted.mk (setLastSector (setFirstSector Sample.primary 500) 1499)
                               [false; true])
                  (Scripted.mk (setLastSector (setFirstSector Sample.primary 500) 1499)
                               [true])
                  (Scripted.mk Sample.primary []) true _ _ _ _ _ _);
      vm_compute; reflexivity.
  - assert (Hpre : checkOriginal (ResizeOperation_new Sample.primary 1000 2999)
                     (start (Scripted.mk Sample.primary [true; true; false; false]))
                   = Some (true, mkExec (Scripted.mk Sample.primary [true; false; false])
                                        StatusRunning [(CheckFileSystemJob, true)] []))
      by (vm_compute; reflexivity).
    assert (Hme : moveExtendedJob (ResizeOperation_new Sample.primary 1000 2999) = None)
      by (vm_compute; reflexivity).
    destruct (content_failure_rolls_back _ _ _ Hpre Hme) as [_ Hgrow].
    refine (Hgrow (mkExec (Scripted.mk Sample.primary [true; false; false])
                          StatusRunning [(CheckFileSystemJob, true)] [])
                  (mkExec (Scripted.mk Sample.primary [true; false; false])
                          StatusRunning [(CheckFileSystemJob, true)] [])
                  (SetPartGeometryJob 1000 2000) (ResizeFileSystemJob 2000)
                  (Scripted.mk (setLastSector Sample.primary 2999) [false; false])
                  (Scripted.mk (setLastSector Sample.primary 2999) [false])
                  (Scripted.mk (setLastSector Sample.primary 2999) []) false
                  _ _ _ _ _ _ _);
      vm_compute; reflexivity.
Defined.

(** ** Preview and undo *)

Lemma setSectors_twice (p : Partition) (a b c d : Z) :
  setLastSector (setFirstSector (setLastSector (setFirstSector p a) b) c) d
  = setLastSector (setFirstSector p c) d.
Proof. reflexivity. Qed.

Lemma setSectors_same (p : Partition) :
  setLastSector (setFirstSector p (firstSector p)) (lastSector p) = p.
Proof. destruct p; reflexivity. Qed.

Section PreviewFacts.

Context {T : Type} `{PreviewTable T}.

Lemma part_preview (op : ResizeOperation) (s : Preview T) :
  part (preview op s)
  = setLastSector (setFirstSector (part s) (newFirstSector op)) (newLastSector op).
Proof.
  unfold preview. cbn [part].
  destruct ((firstSector (part s) =? newFirstSector op)
            && (lastSector (part s) =? newLastSector op));
    [apply setSectors_twice | reflexivity].
Qed.

Lemma part_undo (op : ResizeOperation) (s : Preview T) :
  part (undo op s)
  = setLastSector (setFirstSector (part s) (origFirstSector op)) (origLastSector op).
Proof. reflexivity. Qed.

End PreviewFacts.

(** C7.  After [preview] and then [undo] the first and last sector of the
    partition are the original ones the operation cached; for an operation
    created on the partition as it is before the preview, the partition
    object is back to what it was. *)
Theorem preview_undo_restores {T : Type} `{PreviewTable T}
        (op : ResizeOperation) (s : Preview T) :
  firstSector (part (undo op (preview op s))) = origFirstSector op
  /\ lastSector (part (undo op (preview op s))) = origLastSector op
  /\ forall newfirst newlast : Z,
       part (undo (ResizeOperation_new (part s) newfirst newlast)
                  (preview (ResizeOperation_new (part s) newfirst newlast) s))
       = part s.
Proof.
  split; [reflexivity | split; [reflexivity |]].
  intros newfirst newlast.
  rewrite part_undo, part_preview, setSectors_twice.
  pose proof (ResizeOperation_new_sectors (part s) newfirst newlast) as Hs.
  unfold sectors in Hs. injection Hs as Hof Hol _ _.
  rewrite Hof, Hol. apply setSectors_same.
Qed.

(** C8.  [preview] leaves the partition at the new first and last sector,
    and a second [preview] leaves the partition object as the first one
    did. *)
Theorem preview_idempotent {T : Type} `{PreviewTable T}
        (op : ResizeOperation) (s : Preview T) :
  geometry (part (preview op s)) = (newFirstSector op, newLastSector op)
  /\ geometry (part (preview op (preview op s))) = (newFirstSector op, newLastSector op)
  /\ part (preview op (preview op s)) = part (preview op s).
Proof.
  rewrite !part_preview.
  split; [reflexivity | split; [reflexivity | apply setSectors_twice]].
Qed.

(** ** Eligibility *)

(** C10.  On a null partition pointer each predicate returns [false]. *)
Theorem null_partition_not_eligible (s_DirtyPVs : list N) :
  canGrow s_DirtyPVs None = false
  /\ canShrink s_DirtyPVs None = false
  /\ canMove s_DirtyPVs None = false.
Proof. repeat split. Qed.

(** C9 (as the code has it).  For a partition in the New state on a device
    with a partition table, not a physical volume of a dirty volume group:
    [canMove] is true exactly when the partition has no Luks role;
    [canGrow] and [canShrink] are true when it has no Luks role, and with
    the Luks role they are decided by the mount state and the capability
    of the file system.  [canShrink] is false for every partition in the
    Copy state. *)
Theorem new_partition_eligibility (s_DirtyPVs : list N) (p : Partition) :
  state p = StateNew ->
  tableType p <> none ->
  isLVMPVinNewlyVG s_DirtyPVs p = false ->
  canMove s_DirtyPVs (Some p) = negb (has (roles p) Luks)
  /\ canGrow s_DirtyPVs (Some p)
     = (if has (roles p) Luks
        then if isMounted p then to_bool (supportGrowOnline (fileSystem p))
             else negb (supportGrow (fileSystem p) =? cmdSupportNone)
        else true)
  /\ canShrink s_DirtyPVs (Some p)
     = (if has (roles p) Luks
        then if isMounted p then to_bool (supportShrinkOnline (fileSystem p))
             else negb (supportShrink (fileSystem p) =? cmdSupportNone)
        else true)
  /\ forall q : Partition, state q = StateCopy -> canShrink s_DirtyPVs (Some q) = false.
Proof.
  intros Hnew Htable Hdirty.
  assert (Ht : TableType_eqb (tableType p) none = false)
    by (destruct (tableType p); [contradiction | reflexivity | reflexivity]).
  unfold canMove, canGrow, canShrink. rewrite Ht, Hdirty, Hnew. cbn.
  repeat split; try (destruct (has (roles p) Luks); reflexivity).
  intros q Hq. rewrite Hq. cbn.
  destruct (TableType_eqb (tableType q) none); [reflexivity |].
  destruct (isLVMPVinNewlyVG s_DirtyPVs q); reflexivity.
Qed.

(** Witness of C9: a new plain partition can be grown, shrunk and moved. *)
Lemma new_partition_eligibility_witness :
  canMove [] (Some Sample.newPlain) = true
  /\ canGrow [] (Some Sample.newPlain) = true
  /\ canShrink [] (Some Sample.newPlain) = true.
Proof.
  assert (Ht : tableType Sample.newPlain <> none) by discriminate.
  destruct (new_partition_eligibility [] Sample.newPlain eq_refl Ht eq_refl)
    as (Hm & Hg & Hs & _).
  split; [exact Hm | split; [exact Hg | exact Hs]].
Defined.

(** Counterexample to C9 as stated: a new encrypted container whose file
    system supports no resizing is in the New state, on a device with a
    table and in no dirty volume group, and can be neither grown nor
    shrunk. *)
Lemma new_luks_counterexample :
  state Sample.newLuks = StateNew
  /\ tableType Sample.newLuks <> none
  /\ isLVMPVinNewlyVG [] Sample.newLuks = false
  /\ state Sample.newLuks <> StateCopy
  /\ canGrow [] (Some Sample.newLuks) = false
  /\ canShrink [] (Some Sample.newLuks) = false.
Proof. repeat split; discriminate. Qed.

(** ** Preview and undo on a concrete table

    With the table of sector ranges for the abstract one, the whole
    preview state makes the round trip, and a second [preview] changes
    nothing at all. *)

Section SectorTableFacts.

Lemma filter_all {A : Type} (f : A -> bool) (l : list A) :
  (forall x, In x l -> f x = true) -> filter f l = l.
Proof.
  induction l as [| a l IH]; intros Hall; [reflexivity |].
  cbn. rewrite (Hall a (or_introl eq_refl)). f_equal.
  apply IH. intros x Hx. apply Hall. right. exact Hx.
Qed.

Lemma remove_insertSorted (e : SectorTable.entry) (tb : SectorTable.t) (p : Partition) :
  fst e = address p ->
  SectorTable.remove (SectorTable.insertSorted e tb) p = SectorTable.remove tb p.
Proof.
  intros He. unfold SectorTable.remove.
  induction tb as [| e' tb IH]; cbn.
  - rewrite He, N.eqb_refl. reflexivity.
  - destruct (fst (snd e) <=? fst (snd e')); cbn.
    + rewrite He, N.eqb_refl. reflexivity.
    + rewrite IH. reflexivity.
Qed.

Lemma remove_remove (tb : SectorTable.t) (p : Partition) :
  SectorTable.remove (SectorTable.remove tb p) p = SectorTable.remove tb p.
Proof.
  unfold SectorTable.remove. apply filter_all.
  intros x Hx. apply filter_In in Hx. tauto.
Qed.

Lemma insertSorted_remove (e : SectorTable.entry) (tb : SectorTable.t) :
  SectorTable.wellFormed tb ->
  In e tb ->
  SectorTable.insertSorted e (filter (fun e' => negb (N.eqb (fst e') (fst e))) tb) = tb.
Proof.
  intros [Hsorted Hnodup]. induction tb as [| e1 tb IH]; intros Hin; [contradiction |].
  apply StronglySorted_inv in Hsorted. destruct Hsorted as [Hsorted Hall].
  cbn in Hnodup. apply NoDup_cons_iff in Hnodup. destruct Hnodup as [Hfresh Hnodup].
  destruct Hin as [<- | Hin].
  - cbn. rewrite N.eqb_refl. cbn.
    rewrite filter_all.
    + destruct tb as [| e2 tb]; [reflexivity |]. cbn.
      apply Forall_inv in Hall.
      destruct (Z.leb_spec (fst (snd e1)) (fst (snd e2))); [reflexivity | lia].
    + intros x Hx. apply negb_true_iff, N.eqb_neq. intros E.
      apply Hfresh. rewrite <- E. apply in_map. exact Hx.
  - assert (Hne : N.eqb (fst e1) (fst e) = false).
    { apply N.eqb_neq. intros E. apply Hfresh. rewrite E. apply in_map. exact Hin. }
    cbn. rewrite Hne. cbn.
    rewrite Forall_forall in Hall. specialize (Hall e Hin).
    destruct (Z.leb_spec (fst (snd e)) (fst (snd e1))); [lia |].
    f_equal. apply IH; assumption.
Qed.

Lemma table_preview (op : ResizeOperation) (s : Preview SectorTable.t) :
  table (preview op s)
  = SectorTable.insert (SectorTable.remove (table s) (part s)) (part (preview op s)).
Proof.
  unfold preview. cbn [table part removePreviewPartition insertPreviewPartition
                       SectorTable_PreviewTable].
  destruct ((firstSector (part s) =? newFirstSector op)
            && (lastSector (part s) =? newLastSector op)); reflexivity.
Qed.

Lemma SectorTable_preview_idempotent (op : ResizeOperation) (s : Preview SectorTable.t) :
  preview op (preview op s) = preview op s.
Proof.
  assert (Hp : part (preview op (preview op s)) = part (preview op s))
    by (rewrite !part_preview; apply setSectors_twice).
  assert (Ht : table (preview op (preview op s)) = table (preview op s)).
  { rewrite (table_preview op (preview op s)), Hp, (table_preview op s).
    unfold SectorTable.insert at 2. rewrite remove_insertSorted by reflexivity.
    rewrite part_preview.
    change (SectorTable.remove (SectorTable.remove (table s) (part s))
              (setLastSector (setFirstSector (part s) (newFirstSector op))
                             (newLastSector op)))
      with (SectorTable.remove (SectorTable.remove (table s) (part s)) (part s)).
    rewrite remove_remove. reflexivity. }
  destruct (preview op (preview op s)) as [p2 t2], (preview op s) as [p1 t1].
  cbn in Hp, Ht. rewrite Hp, Ht. reflexivity.
Qed.

Lemma SectorTable_preview_undo (s : Preview SectorTable.t) (newfirst newlast : Z) :
  SectorTable.wellFormed (table s) ->
  In (SectorTable.entryOf (part s)) (table s) ->
  let op := ResizeOperation_new (part s) newfirst newlast in
  undo op (preview op s) = s.
Proof.
  intros Hwf Hin op.
  assert (Hp : part (undo op (preview op s)) = part s).
  { unfold op. rewrite part_undo, part_preview, setSectors_twice.
    pose proof (ResizeOperation_new_sectors (part s) newfirst newlast) as Hs.
    unfold sectors in Hs. injection Hs as Hof Hol _ _.
    rewrite Hof, Hol. apply setSectors_same. }
  assert (Ht : table (undo op (preview op s)) = table s).
  { change (table (undo op (preview op s)))
      with (SectorTable.insert
              (SectorTable.remove (table (preview op s)) (part (preview op s)))
              (part (undo op (preview op s)))).
    rewrite Hp, table_preview.
    unfold SectorTable.insert at 2. rewrite remove_insertSorted by reflexivity.
    rewrite part_preview.
    change (SectorTable.remove (SectorTable.remove (table s) (part s))
              (setLastSector (setFirstSector (part s) (newFirstSector op))
                             (newLastSector op)))
      with (SectorTable.remove (SectorTable.remove (table s) (part s)) (part s)).
    rewrite remove_remove.
    apply (insertSorted_remove (SectorTable.entryOf (part s)) (table s) Hwf Hin). }
  destruct (undo op (preview op s)) as [p2 t2], s as [p1 t1].
  cbn in Hp, Ht. rewrite Hp, Ht. reflexivity.
Qed.

End SectorTableFacts.

(** * Further properties of the resize operation *)

(** ** Eligibility *)

Lemma contains_In (s_DirtyPVs : list N) (a : N) :
  contains s_DirtyPVs a = true <-> In a s_DirtyPVs.
Proof.
  unfold contains. rewrite existsb_exists. split.
  - intros (x & Hx & E). apply N.eqb_eq in E. subst. exact Hx.
  - intros Hin. exists a. split; [exact Hin | apply N.eqb_refl].
Qed.

Lemma FileSystemType_eqb_eq (a b : FileSystemType) :
  FileSystemType_eqb a b = true <-> a = b.
Proof. destruct a, b; cbn; split; intros E; congruence. Qed.

Lemma PartitionState_eqb_eq (a b : PartitionState) :
  PartitionState_eqb a b = true <-> a = b.
Proof. destruct a, b; cbn; split; intros E; congruence. Qed.

Lemma TableType_eqb_eq (a b : TableType) : TableType_eqb a b = true <-> a = b.
Proof. destruct a, b; cbn; split; intros E; congruence. Qed.

(** X1.  A file system on a whole device, without a partition table, can
    be neither grown, shrunk nor moved, whatever its state, roles and
    capabilities. *)
Theorem tableless_not_eligible (s_DirtyPVs : list N) (p : Partition) :
  tableType p = none ->
  canGrow s_DirtyPVs (Some p) = false
  /\ canShrink s_DirtyPVs (Some p) = false
  /\ canMove s_DirtyPVs (Some p) = false.
Proof.
  intros Ht. unfold canGrow, canShrink, canMove. rewrite Ht. cbn. auto.
Qed.

Lemma tableless_not_eligible_witness :
  canGrow [] (Some Sample2.wholeDevice) = false
  /\ canShrink [] (Some Sample2.wholeDevice) = false
  /\ canMove [] (Some Sample2.wholeDevice) = false.
Proof. exact (tableless_not_eligible [] Sample2.wholeDevice eq_refl). Defined.

(** When a partition counts as a physical volume of a dirty volume group. *)
Lemma isLVMPVinNewlyVG_iff (s_DirtyPVs : list N) (p : Partition) :
  isLVMPVinNewlyVG s_DirtyPVs p = true
  <-> In (address p) s_DirtyPVs
      /\ (fsType (fileSystem p) = Lvm2_PV
          \/ ((fsType (fileSystem p) = FsLuks \/ fsType (fileSystem p) = FsLuks2)
              /\ innerFS (fileSystem p) = Some Lvm2_PV)).
Proof.
  unfold isLVMPVinNewlyVG. rewrite <- contains_In.
  destruct (fsType (fileSystem p)) eqn:Et; cbn;
    destruct (contains s_DirtyPVs (address p)); cbn;
    try (destruct (innerFS (fileSystem p)) as [[] |]; cbn);
    split; intros Hx; try discriminate; try tauto;
    try (destruct Hx as [Hc [Hl | [[Hl | Hl] Hi]]]; discriminate).
Qed.

(** X2.  A partition listed among the dirty physical volumes whose file
    system is an LVM physical volume, or an encrypted container with an
    LVM physical volume inside, can be neither grown, shrunk nor moved,
    also when it is in the New state. *)
Theorem dirty_volume_not_eligible (s_DirtyPVs : list N) (p : Partition) :
  In (address p) s_DirtyPVs ->
  fsType (fileSystem p) = Lvm2_PV
  \/ ((fsType (fileSystem p) = FsLuks \/ fsType (fileSystem p) = FsLuks2)
      /\ innerFS (fileSystem p) = Some Lvm2_PV) ->
  canGrow s_DirtyPVs (Some p) = false
  /\ canShrink s_DirtyPVs (Some p) = false
  /\ canMove s_DirtyPVs (Some p) = false.
Proof.
  intros Hin Hfs.
  assert (Hd : isLVMPVinNewlyVG s_DirtyPVs p = true)
    by (apply isLVMPVinNewlyVG_iff; auto).
  unfold canGrow, canShrink, canMove. rewrite Hd.
  destruct (TableType_eqb (tableType p) none); auto.
Qed.

Lemma dirty_volume_not_eligible_witness :
  canGrow [8%N] (Some Sample2.dirtyPV) = false
  /\ canShrink [8%N] (Some Sample2.dirtyPV) = false
  /\ canMove [8%N] (Some Sample2.dirtyPV) = false.
Proof.
  apply (dirty_volume_not_eligible [8%N] Sample2.dirtyPV).
  - left. reflexivity.
  - left. reflexivity.
Defined.

(** X3.  Whenever [canMove] answers yes, the partition is on a device with
    a table and in no dirty volume group, and either it is New without the
    Luks role, or it is not New, not mounted, not an Extended partition
    with children, and its file system supports moving. *)
Theorem canMove_necessary (s_DirtyPVs : list N) (ptr : option Partition) :
  canMove s_DirtyPVs ptr = true ->
  exists p : Partition,
    ptr = Some p
    /\ tableType p <> none
    /\ isLVMPVinNewlyVG s_DirtyPVs p = false
    /\ ((state p = StateNew /\ has (roles p) Luks = false)
        \/ (state p <> StateNew
            /\ isMounted p = false
            /\ (has (roles p) Extended = false \/ hasChildren p = false)
            /\ supportMove (fileSystem p) <> cmdSupportNone)).
Proof.
  destruct ptr as [p |]; [| discriminate]. unfold canMove. intros Hm.
  exists p. split; [reflexivity |].
  destruct (TableType_eqb (tableType p) none) eqn:Et; [discriminate |].
  destruct (isLVMPVinNewlyVG s_DirtyPVs p); [discriminate |].
  split; [intros E; apply TableType_eqb_eq in E; congruence |].
  split; [reflexivity |].
  destruct (PartitionState_eqb (state p) StateNew) eqn:Es.
  - left. apply PartitionState_eqb_eq in Es.
    destruct (has (roles p) Luks); [discriminate | auto].
  - right.
    split; [intros E; apply PartitionState_eqb_eq in E; congruence |].
    destruct (isMounted p); [discriminate |].
    split; [reflexivity |].
    destruct (has (roles p) Extended); destruct (hasChildren p); cbn in Hm;
      try discriminate;
      (split; [auto | intros E; rewrite E in Hm; discriminate]).
Qed.

Lemma canMove_necessary_witness :
  exists p : Partition,
    Some Sample.newPlain = Some p /\ tableType p <> none.
Proof.
  destruct (canMove_necessary [] (Some Sample.newPlain) eq_refl) as (p & E & Ht & _).
  exists p. split; [exact E | exact Ht].
Defined.

(** X4.  A partition that is not New is never movable while mounted, and
    never movable when it is an Extended partition with children. *)
Theorem canMove_refused (s_DirtyPVs : list N) (p : Partition) :
  state p <> StateNew ->
  isMounted p = true \/ (has (roles p) Extended = true /\ hasChildren p = true) ->
  canMove s_DirtyPVs (Some p) = false.
Proof.
  intros Hs Hc. unfold canMove.
  destruct (TableType_eqb (tableType p) none); [reflexivity |].
  destruct (isLVMPVinNewlyVG s_DirtyPVs p); [reflexivity |].
  destruct (PartitionState_eqb (state p) StateNew) eqn:Es;
    [apply PartitionState_eqb_eq in Es; contradiction |].
  destruct (isMounted p); [reflexivity |].
  destruct Hc as [Hc | [He Hh]]; [discriminate |].
  rewrite He, Hh. reflexivity.
Qed.

Lemma canMove_refused_witness :
  canMove [] (Some Sample2.mounted) = false
  /\ canMove [] (Some Sample.extended) = false.
Proof.
  split.
  - apply canMove_refused; [discriminate | left; reflexivity].
  - apply canMove_refused; [discriminate | right; split; reflexivity].
Defined.

(** X5.  Whenever [canShrink] answers yes the partition is not in the Copy
    state, is on a device with a table and in no dirty volume group; and
    unless it is New without the Luks role, its file system supports
    shrinking in the way its mount state asks for (online when mounted,
    offline otherwise). *)
Theorem canShrink_necessary (s_DirtyPVs : list N) (p : Partition) :
  canShrink s_DirtyPVs (Some p) = true ->
  state p <> StateCopy
  /\ tableType p <> none
  /\ isLVMPVinNewlyVG s_DirtyPVs p = false
  /\ ((state p = StateNew /\ has (roles p) Luks = false)
      \/ (if isMounted p then supportShrinkOnline (fileSystem p) <> 0
          else supportShrink (fileSystem p) <> cmdSupportNone)).
Proof.
  unfold canShrink, to_bool. intros Hc.
  destruct (TableType_eqb (tableType p) none) eqn:Et; [discriminate |].
  destruct (isLVMPVinNewlyVG s_DirtyPVs p); [discriminate |].
  assert (Htab : tableType p <> none)
    by (intros E; apply TableType_eqb_eq in E; congruence).
  destruct (PartitionState_eqb (state p) StateNew) eqn:Es;
    destruct (has (roles p) Luks) eqn:El; cbn in Hc.
  - apply PartitionState_eqb_eq in Es. rewrite Es in *. cbn in Hc.
    repeat split; try assumption; try discriminate.
    right. destruct (isMounted p); intros E; rewrite E in Hc; discriminate.
  - apply PartitionState_eqb_eq in Es. rewrite Es.
    repeat split; try assumption; try discriminate. left. auto.
  - destruct (PartitionState_eqb (state p) StateCopy) eqn:Ec; [discriminate |].
    repeat split; try assumption.
    + intros E. apply PartitionState_eqb_eq in E. congruence.
    + right. destruct (isMounted p); intros E; rewrite E in Hc; discriminate.
  - destruct (PartitionState_eqb (state p) StateCopy) eqn:Ec; [discriminate |].
    repeat split; try assumption.
    + intros E. apply PartitionState_eqb_eq in E. congruence.
    + right. destruct (isMounted p); intros E; rewrite E in Hc; discriminate.
Qed.

Lemma canShrink_necessary_witness :
  state Sample.primary <> StateCopy /\ tableType Sample.primary <> none.
Proof.
  destruct (canShrink_necessary [] Sample.primary eq_refl) as (Hs & Ht & _).
  split; [exact Hs | exact Ht].
Defined.

(** X6.  Whenever [canGrow] answers yes the partition is on a device with
    a table and in no dirty volume group; and unless it is New without the
    Luks role, its file system supports growing in the way its mount state
    asks for (online when mounted, offline otherwise). *)
Theorem canGrow_necessary (s_DirtyPVs : list N) (p : Partition) :
  canGrow s_DirtyPVs (Some p) = true ->
  tableType p <> none
  /\ isLVMPVinNewlyVG s_DirtyPVs p = false
  /\ ((state p = StateNew /\ has (roles p) Luks = false)
      \/ (if isMounted p then supportGrowOnline (fileSystem p) <> 0
          else supportGrow (fileSystem p) <> cmdSupportNone)).
Proof.
  unfold canGrow, to_bool. intros Hc.
  destruct (TableType_eqb (tableType p) none) eqn:Et; [discriminate |].
  destruct (isLVMPVinNewlyVG s_DirtyPVs p); [discriminate |].
  assert (Htab : tableType p <> none)
    by (intros E; apply TableType_eqb_eq in E; congruence).
  destruct (PartitionState_eqb (state p) StateNew) eqn:Es;
    destruct (has (roles p) Luks) eqn:El; cbn in Hc;
    repeat split; try assumption;
    try (left; apply PartitionState_eqb_eq in Es; auto; fail);
    right; destruct (isMounted p); intros E; rewrite E in Hc; discriminate.
Qed.

Lemma canGrow_necessary_witness :
  tableType Sample.primary <> none
  /\ isLVMPVinNewlyVG [] Sample.primary = false.
Proof.
  destruct (canGrow_necessary [] Sample.primary eq_refl) as (Ht & Hd & _).
  split; [exact Ht | exact Hd].
Defined.

(** ** The action and its description *)

(** X7.  For sectors that are qint64 values, [resizeAction] is [None]
    exactly when the new first and last sector are the original ones (the
    wrap-around of the length computation cannot hide a change). *)
Theorem resizeAction_None_iff_unchanged (op : ResizeOperation) :
  QInt64.in_range (origLastSector op) ->
  QInt64.in_range (newLastSector op) ->
  (resizeAction op = ResizeAction.None
   <-> newFirstSector op = origFirstSector op /\ newLastSector op = origLastSector op).
Proof. apply resizeAction_None_in_range. Qed.

Lemma resizeAction_None_iff_unchanged_witness :
  resizeAction (ResizeOperation_new Sample.primary 1000 1999) = ResizeAction.None.
Proof.
  apply (resizeAction_None_iff_unchanged (ResizeOperation_new Sample.primary 1000 1999)).
  - vm_compute. split; discriminate.
  - vm_compute. split; discriminate.
  - vm_compute. split; reflexivity.
Defined.

(** X8.  The description chosen by the switch always agrees with the
    request: it speaks of moving left (right) exactly when the new first
    sector is below (above) the original one, and of growing (shrinking)
    exactly when the new length is above (below) the original one; so the
    text for an unknown action is chosen only when nothing changes. *)
Theorem description_matches_request (logicalSize : Z) (op : ResizeOperation) :
  saysMoveLeft (description logicalSize op) = (newFirstSector op <? origFirstSector op)
  /\ saysMoveRight (description logicalSize op) = (newFirstSector op >? origFirstSector op)
  /\ saysGrow (description logicalSize op) = (newLength op >? origLength op)
  /\ saysShrink (description logicalSize op) = (newLength op <? origLength op)
  /\ (description logicalSize op = DescUnknown
      <-> newFirstSector op = origFirstSector op /\ newLength op = origLength op).
Proof.
  unfold description, resizeAction.
  destruct (Z.gtb_spec (newLength op) (origLength op));
    destruct (Z.ltb_spec (newLength op) (origLength op));
    destruct (Z.gtb_spec (newFirstSector op) (origFirstSector op));
    destruct (Z.ltb_spec (newFirstSector op) (origFirstSector op));
    try lia; cbn;
    (repeat split; try reflexivity; try discriminate; try lia;
     intros [Hf Hl]; lia).
Qed.

(** ** The geometry the job list aims at *)

Lemma lastSetPartGeometryJob_acc (l : list Job) (acc : option Job) :
  fold_left (fun acc j => if isSetPartGeometryJob j then Some j else acc) l acc
  = match lastSetPartGeometryJob l with
    | Some j => Some j
    | None => acc
    end.
Proof.
  unfold lastSetPartGeometryJob. revert acc.
  induction l as [| j l IH]; intros acc; cbn; [reflexivity |].
  rewrite (IH (if isSetPartGeometryJob j then Some j else acc)).
  rewrite (IH (if isSetPartGeometryJob j then Some j else None)).
  destruct (fold_left _ l None); [reflexivity |].
  destruct (isSetPartGeometryJob j); reflexivity.
Qed.

Lemma lastSetPartGeometryJob_app (l1 l2 : list Job) :
  lastSetPartGeometryJob (l1 ++ l2)
  = match lastSetPartGeometryJob l2 with
    | Some j => Some j
    | None => lastSetPartGeometryJob l1
    end.
Proof.
  unfold lastSetPartGeometryJob at 1. rewrite fold_left_app.
  apply lastSetPartGeometryJob_acc.
Qed.

(** X9.  Whatever the combination of actions, the last geometry job of the
    composed list sets the requested first sector and the requested
    length; the list has no geometry job at all exactly when the partition
    is not Extended and nothing changes. *)
Theorem last_geometry_job_is_request (p : Partition) (nf nl : Z) :
  lastSetPartGeometryJob (jobs (ResizeOperation_new p nf nl))
  = if has (roles p) Extended
       || negb (resizeAction (ResizeOperation_new p nf nl) =? ResizeAction.None)
    then Some (SetPartGeometryJob nf (newLength (ResizeOperation_new p nf nl)))
    else None.
Proof.
  rewrite resizeAction_new, newLength_new.
  destruct (has (roles p) Extended) eqn:Hext.
  - rewrite (ResizeOperation_new_Extended p nf nl Hext). cbn [jobs orb].
    rewrite lastSetPartGeometryJob_app. reflexivity.
  - rewrite (ResizeOperation_new_nonExtended p nf nl Hext). cbv zeta. cbn [jobs orb].
    rewrite !lastSetPartGeometryJob_app.
    rewrite resizeAction_Shrink, resizeAction_Grow, resizeAction_MoveLeft,
      resizeAction_MoveRight.
    unfold resizeAction.
    change (length p) with (origLength (init p nf nl)).
    change (newFirstSector (init p nf nl)) with nf.
    change (origFirstSector (init p nf nl)) with (firstSector p).
    set (len := newLength (init p nf nl)). set (olen := origLength (init p nf nl)).
    clearbody len olen.
    destruct (canCheck p);
      destruct (Z.gtb_spec len olen); destruct (Z.ltb_spec len olen);
      destruct (Z.gtb_spec nf (firstSector p)); destruct (Z.ltb_spec nf (firstSector p));
      try lia; cbn; try reflexivity;
      repeat f_equal; lia.
Qed.

(** ** Traces of an execution *)

Section ExecutionTraces.

Context {W : Type} `{Backend W}.

Lemma preserved_run (I : W -> Prop) (j : Job) (w w' : W) (b : bool) :
  preserved I -> I w -> run j w = (b, w') -> I w'.
Proof. intros HI Hw E. specialize (HI j w Hw). rewrite E in HI. exact HI. Qed.

Ltac finish_step :=
  do 3 eexists; split; [reflexivity |];
  cbn [ran status world];
  split; [first [ reflexivity
                | rewrite <- !app_assoc; reflexivity
                | symmetry; apply app_nil_r ] |];
  split; [reflexivity |];
  split; [reflexivity |];
  split; [first [ discriminate | intros _; reflexivity ] |];
  intros I HI Hw;
  repeat match goal with
         | E : run ?j ?w = (_, ?w') |- _ =>
             match goal with
             | Hw0 : I w |- _ =>
                 pose proof (preserved_run I j w w' _ HI Hw0 E); clear E
             end
         end;
  assumption.

Lemma shrink_spec (op : ResizeOperation) :
  stepSpec (shrink op) (slotJobs [shrinkResizeJob op; shrinkSetGeomJob op]).
Proof.
  intros st. unfold_exec.
  destruct (shrinkResizeJob op) as [j |]; cbn;
    [destruct (run j (world st)) as [[] w1] eqn:E1; cbn |];
    try (destruct (shrinkSetGeomJob op) as [g |]; cbn;
         [match goal with
          | |- context [run g ?w] => destruct (run g w) as [[] w2] eqn:E2; cbn
          end |]);
    finish_step.
Qed.

Lemma move_spec (op : ResizeOperation) :
  stepSpec (move op) (slotJobs [moveSetGeomJob op; moveFileSystemJob op]).
Proof.
  intros st. unfold_exec.
  destruct (moveSetGeomJob op) as [g |]; cbn;
    [destruct (run g (world st)) as [[] w1] eqn:E1; cbn |];
    try (destruct (moveFileSystemJob op) as [m |]; cbn;
         [match goal with
          | |- context [run m ?w] => destruct (run m w) as [[] w2] eqn:E2; cbn
          end |]);
    try match goal with
        | |- context [run (SetPartGeometryJob ?a ?b) ?w] =>
            destruct (run (SetPartGeometryJob a b) w) as [[] w3] eqn:E3; cbn
        end;
    finish_step.
Qed.

Lemma grow_spec (op : ResizeOperation) :
  stepSpec (grow op) (slotJobs [growSetGeomJob op; growResizeJob op]).
Proof.
  intros st. unfold_exec.
  destruct (growSetGeomJob op) as [g |]; cbn;
    [destruct (run g (world st)) as [[] w1] eqn:E1; cbn |];
    try (destruct (growResizeJob op) as [m |]; cbn;
         [match goal with
          | |- context [run m ?w] => destruct (run m w) as [[] w2] eqn:E2; cbn
          end |]);
    try match goal with
        | |- context [run (SetPartGeometryJob ?a ?b) ?w] =>
            destruct (run (SetPartGeometryJob a b) w) as [[] w3] eqn:E3; cbn
        end;
    finish_step.
Qed.

Lemma allSucceeded_app (tr1 tr2 : list (Job * bool)) :
  allSucceeded (tr1 ++ tr2) = allSucceeded tr1 && allSucceeded tr2.
Proof. apply forallb_app. Qed.

Lemma andThen_spec (a b : M W bool) (ja jb : list Job) :
  stepSpec a ja -> stepSpec b jb -> stepSpec (andThen a b) (ja ++ jb).
Proof.
  intros Ha Hb st.
  destruct (Ha st) as (r1 & st1 & tr1 & Ea & Hran1 & Hr1 & Hst1 & Hj1 & HI1).
  unfold andThen, bind. rewrite Ea. destruct r1.
  - destruct (Hb st1) as (r2 & st2 & tr2 & Eb & Hran2 & Hr2 & Hst2 & Hj2 & HI2).
    exists r2, st2, (tr1 ++ tr2). split; [exact Eb |].
    split; [rewrite Hran2, Hran1, app_assoc; reflexivity |].
    split; [rewrite allSucceeded_app, <- Hr1, <- Hr2; reflexivity |].
    split; [congruence |].
    split; [intros Hr; rewrite map_app, Hj1, Hj2; auto |].
    intros I HI Hw. apply HI2; [exact HI |]. apply HI1; assumption.
  - exists false, st1, tr1. split; [reflexivity |].
    repeat split; try assumption; try discriminate.
Qed.

Lemma phases_spec (op : ResizeOperation) :
  stepSpec (phases op)
           (slotJobs [shrinkResizeJob op; shrinkSetGeomJob op;
                      moveSetGeomJob op; moveFileSystemJob op;
                      growSetGeomJob op; growResizeJob op]).
Proof.
  replace (slotJobs [shrinkResizeJob op; shrinkSetGeomJob op;
                     moveSetGeomJob op; moveFileSystemJob op;
                     growSetGeomJob op; growResizeJob op])
    with ((slotJobs [shrinkResizeJob op; shrinkSetGeomJob op]
           ++ slotJobs [moveSetGeomJob op; moveFileSystemJob op])
          ++ slotJobs [growSetGeomJob op; growResizeJob op]).
  - exact (andThen_spec _ _ _ _
             (andThen_spec _ _ _ _ (shrink_spec op) (move_spec op))
             (grow_spec op)).
  - unfold slotJobs. rewrite <- !flat_map_app. reflexivity.
Qed.

Lemma checkResized_cases (op : ResizeOperation) (st : Exec W) :
  checkResized op st
  = if canCheck (partition (world st)) then
      match checkResizedJob op with
      | Some j =>
          Some (fst (run j (world st)),
                mkExec (snd (run j (world st))) (status st)
                       (ran st ++ [(j, fst (run j (world st)))])
                       (report st ++ if fst (run j (world st)) then []
                                     else [CheckAfterFailed]))
      | None => None
      end
    else Some (true, st).
Proof.
  unfold_exec. destruct (canCheck (partition (world st))); [| reflexivity].
  destruct (checkResizedJob op) as [j |]; [| reflexivity].
  destruct (run j (world st)) as [[] w1]; cbn; rewrite ?app_nil_r; reflexivity.
Qed.

Lemma execute_extended (op : ResizeOperation) (g : Job) (st st1 : Exec W) :
  checkOriginal op st = Some (true, st1) ->
  moveExtendedJob op = Some g ->
  execute op st
  = Some (fst (run g (world st1)),
          mkExec (snd (run g (world st1)))
                 (if fst (run g (world st1)) then StatusFinishedSuccess else StatusError)
                 (ran st1 ++ [(g, fst (run g (world st1)))])
                 (report st1 ++ if fst (run g (world st1)) then []
                                else [MovingExtendedFailed])).
Proof.
  intros Hc Hg. unfold execute. unfold bind at 1. rewrite Hc, Hg.
  unfold_exec. destruct (run g (world st1)) as [[] w1]; cbn;
    rewrite ?app_nil_r; reflexivity.
Qed.

Lemma execute_after_check (op : ResizeOperation) (st st1 : Exec W) :
  checkOriginal op st = Some (true, st1) ->
  match execute op st with
  | Some (r, st') =>
      exists tr : list (Job * bool),
        ran st' = ran st1 ++ tr
        /\ r = allSucceeded tr
        /\ status st' = (if r then StatusFinishedSuccess else StatusError)
        /\ (forall I : W -> Prop, preserved I -> I (world st1) -> I (world st'))
        /\ (r = true ->
            exists cpost : bool,
              map fst tr = afterCheck op cpost
              /\ forall c : bool,
                   preserved (fun w => canCheck (partition w) = c) ->
                   canCheck (partition (world st1)) = c -> cpost = c)
  | None => moveExtendedJob op = None /\ checkResizedJob op = None
  end.
Proof.
  intros Hc. unfold afterCheck.
  destruct (moveExtendedJob op) as [g |] eqn:Hg.
  - rewrite (execute_extended op g st st1 Hc Hg).
    destruct (run g (world st1)) as [b w1] eqn:E. cbn [fst snd].
    exists [(g, b)]. cbn [ran status world].
    split; [reflexivity |]. split; [destruct b; reflexivity |].
    split; [reflexivity |].
    split; [intros I HI Hw; exact (preserved_run I g _ _ _ HI Hw E) |].
    intros _. exists (canCheck (partition (world st1))).
    split; [reflexivity | auto].
  - destruct (phases_spec op st1) as (r & st2 & tr & Ep & Hran & Hr & Hst & Hj & HI2).
    destruct r.
    + pose proof (checkResized_cases op st2) as Hpost.
      destruct (canCheck (partition (world st2))) eqn:Hc2.
      * destruct (checkResizedJob op) as [j |] eqn:Hcj.
        -- rewrite (execute_phases_pass op st st1 st2 _ _ Hc Hg Ep Hpost).
           destruct (run j (world st2)) as [b w3] eqn:E. cbn [fst snd ran status world].
           exists (tr ++ [(j, b)]).
           split; [rewrite Hran, app_assoc; reflexivity |].
           split; [rewrite allSucceeded_app, <- Hr; destruct b; reflexivity |].
           split; [reflexivity |].
           split; [intros I HI Hw;
                   exact (preserved_run I j _ _ _ HI (HI2 I HI Hw) E) |].
           intros _. exists true. split.
           ++ rewrite map_app, (Hj eq_refl). reflexivity.
           ++ intros c HI Hw. rewrite <- Hc2. exact (HI2 _ HI Hw).
        -- unfold execute, bind. rewrite Hc, Hg, Ep, Hpost. auto.
      * rewrite (execute_phases_pass op st st1 st2 _ _ Hc Hg Ep Hpost).
        cbn [ran status world]. exists tr.
        split; [exact Hran |]. split; [exact Hr |]. split; [reflexivity |].
        split; [exact HI2 |].
        intros _. exists false. split.
        -- rewrite (Hj eq_refl). unfold phaseJobs. rewrite app_nil_r. reflexivity.
        -- intros c HI Hw. rewrite <- Hc2. exact (HI2 _ HI Hw).
    + rewrite (execute_phases_fail op st st1 st2 Hc Hg Ep).
      cbn [ran status world]. exists tr.
      split; [exact Hran |]. split; [exact Hr |]. split; [reflexivity |].
      split; [exact HI2 |]. discriminate.
Qed.

Lemma execute_full (op : ResizeOperation) (st : Exec W) :
  match execute op st with
  | Some (r, st') =>
      exists tr : list (Job * bool),
        ran st' = ran st ++ tr
        /\ r = allSucceeded tr
        /\ status st' = (if r then StatusFinishedSuccess else StatusError)
        /\ (forall I : W -> Prop, preserved I -> I (world st) -> I (world st'))
        /\ (r = true ->
            exists cpost : bool,
              map fst tr
              = phaseJobs (canCheck (partition (world st))) [checkOriginalJob op]
                ++ afterCheck op cpost
              /\ forall c : bool,
                   preserved (fun w => canCheck (partition w) = c) ->
                   canCheck (partition (world st)) = c -> cpost = c)
  | None => moveExtendedJob op = None /\ checkResizedJob op = None
  end.
Proof.
  pose proof (checkOriginal_cases op st) as Hc.
  destruct (canCheck (partition (world st))) eqn:Hcan.
  - destruct (run (checkOriginalJob op) (world st)) as [b w1] eqn:E.
    cbn [fst snd] in Hc. destruct b.
    + pose proof (execute_after_check op st _ Hc) as Hrest.
      destruct (execute op st) as [[r st'] |]; [| exact Hrest].
      destruct Hrest as (tr & Hran & Hr & Hst & HI & Hj). cbn [ran world] in *.
      exists ((checkOriginalJob op, true) :: tr).
      split; [rewrite Hran, <- app_assoc; reflexivity |].
      split; [exact Hr |]. split; [exact Hst |].
      split; [intros I HI0 Hw; apply HI; [exact HI0 |];
              exact (preserved_run I _ _ _ _ HI0 Hw E) |].
      intros Hrt. destruct (Hj Hrt) as (cpost & Hmap & Hcpost).
      exists cpost. split; [cbn; rewrite Hmap; reflexivity |].
      intros c HIc Hw. rewrite <- Hcan in Hw. apply Hcpost; [exact HIc |].
      exact (preserved_run _ _ _ _ _ HIc Hw E).
    + rewrite (execute_check_fails op st _ Hc). cbn [ran status world].
      exists [(checkOriginalJob op, false)].
      split; [reflexivity |]. split; [reflexivity |]. split; [reflexivity |].
      split; [intros I HI0 Hw; exact (preserved_run I _ _ _ _ HI0 Hw E) |].
      discriminate.
  - pose proof (execute_after_check op st _ Hc) as Hrest.
    destruct (execute op st) as [[r st'] |]; [| exact Hrest].
    destruct Hrest as (tr & Hran & Hr & Hst & HI & Hj).
    exists tr. repeat (split; [assumption |]).
    intros Hrt. destruct (Hj Hrt) as (cpost & Hmap & Hcpost).
    exists cpost. split; [exact Hmap |].
    intros c HIc Hw. rewrite <- Hcan in Hw. exact (Hcpost c HIc Hw).
Qed.

Lemma move_geom_fails (op : ResizeOperation) (st : Exec W) (g : Job) (w1 : W) :
  moveSetGeomJob op = Some g ->
  run g (world st) = (false, w1) ->
  move op st
  = Some (false, mkExec w1 (status st) (ran st ++ [(g, false)])
                        (report st ++ [MovingPartitionFailed])).
Proof.
  intros Hg Hrun. unfold_exec. rewrite Hg. cbn. rewrite Hrun. reflexivity.
Qed.

Lemma grow_geom_fails (op : ResizeOperation) (st : Exec W) (g : Job) (w1 : W) :
  growSetGeomJob op = Some g ->
  run g (world st) = (false, w1) ->
  grow op st
  = Some (false, mkExec w1 (status st) (ran st ++ [(g, false)])
                        (report st ++ [CouldNotGrowPartition])).
Proof.
  intros Hg Hrun. unfold_exec. rewrite Hg. cbn. rewrite Hrun. reflexivity.
Qed.

End ExecutionTraces.


Lemma new_slots_not_both_null (p : Partition) (nf nl : Z) :
  moveExtendedJob (ResizeOperation_new p nf nl) <> None
  \/ checkResizedJob (ResizeOperation_new p nf nl) <> None.
Proof.
  destruct (has (roles p) Extended) eqn:Hext.
  - left. rewrite (ResizeOperation_new_Extended p nf nl Hext). discriminate.
  - right. rewrite (ResizeOperation_new_nonExtended p nf nl Hext). discriminate.
Qed.



(** ** What a run of [execute] amounts to *)

(** X10.  Whenever [execute] returns, it has appended the jobs it ran to
    the trace, its result is [true] exactly when every one of them
    succeeded, and the status is the success status for [true] and the
    error status for [false]; no run ends in another status. *)
Theorem execute_result_is_conjunction {W : Type} `{Backend W}
        (op : ResizeOperation) (st st' : Exec W) (rval : bool) :
  execute op st = Some (rval, st') ->
  exists tr : list (Job * bool),
    ran st' = ran st ++ tr
    /\ rval = allSucceeded tr
    /\ status st' = (if rval then StatusFinishedSuccess else StatusError).
Proof.
  intros He. pose proof (execute_full op st) as Hfull. rewrite He in Hfull.
  destruct Hfull as (tr & Hran & Hr & Hst & _). exists tr. auto.
Qed.

Lemma execute_result_is_conjunction_witness :
  execute (ResizeOperation_new Sample.primary 1000 1499)
          (start (Scripted.mk Sample.primary [true; false]))
  = Some (false,
          mkExec (Scripted.mk Sample.primary []) StatusError
                 [(CheckFileSystemJob, true); (ResizeFileSystemJob 500, false)]
                 [CouldNotShrinkFileSystem; ResizingMovingFailed])
  /\ exists tr : list (Job * bool),
       [(CheckFileSystemJob, true); (ResizeFileSystemJob 500, false)] = [] ++ tr
       /\ false = allSucceeded tr
       /\ StatusError = StatusError.
Proof.
  assert (He : execute (ResizeOperation_new Sample.primary 1000 1499)
                 (start (Scripted.mk Sample.primary [true; false]))
               = Some (false,
                       mkExec (Scripted.mk Sample.primary []) StatusError
                         [(CheckFileSystemJob, true); (ResizeFileSystemJob 500, false)]
                         [CouldNotShrinkFileSystem; ResizingMovingFailed]))
    by (vm_compute; reflexivity).
  split; [exact He |].
  exact (execute_result_is_conjunction _ _ _ _ He).
Defined.

(** X11.  On an operation made by the constructor, [execute] never
    dereferences a null job pointer: for every partition, request, backend
    and state it returns a result. *)
Theorem execute_total_for_constructed (p : Partition) (nf nl : Z)
        (W : Type) (B : Backend W) (st : Exec W) :
  exists (rval : bool) (st' : Exec W),
    execute (ResizeOperation_new p nf nl) st = Some (rval, st').
Proof.
  pose proof (execute_full (ResizeOperation_new p nf nl) st) as Hfull.
  destruct (execute (ResizeOperation_new p nf nl) st) as [[r st'] |].
  - exists r, st'. reflexivity.
  - destruct Hfull as [Hme Hcr].
    destruct (new_slots_not_both_null p nf nl); contradiction.
Qed.



(** X13.  When the pre-check job fails, it is the only job that runs: no
    geometry or file system job follows, [execute] returns [false] and the
    status is the error status. *)
Theorem precheck_failure_stops {W : Type} `{Backend W}
        (op : ResizeOperation) (st : Exec W) (w1 : W) :
  canCheck (partition (world st)) = true ->
  run (checkOriginalJob op) (world st) = (false, w1) ->
  execute op st
  = Some (false, mkExec w1 StatusError (ran st ++ [(checkOriginalJob op, false)])
                        (report st ++ [CheckBeforeFailed])).
Proof.
  intros Hc Hrun.
  rewrite (execute_check_fails op st
             (mkExec w1 (status st) (ran st ++ [(checkOriginalJob op, false)])
                     (report st))); [reflexivity |].
  rewrite checkOriginal_cases, Hc, Hrun. reflexivity.
Qed.

Lemma precheck_failure_stops_witness :
  execute (ResizeOperation_new Sample.primary 500 1499)
          (start (Scripted.mk Sample.primary [false]))
  = Some (false,
          mkExec (Scripted.mk Sample.primary []) StatusError
                 ([] ++ [(checkOriginalJob (ResizeOperation_new Sample.primary 500 1499),
                          false)])
                 ([] ++ [CheckBeforeFailed])).
Proof.
  apply (precheck_failure_stops (ResizeOperation_new Sample.primary 500 1499)
           (start (Scripted.mk Sample.primary [false]))).
  - reflexivity.
  - vm_compute. reflexivity.
Defined.

(** X14.  When the geometry job of the move phase, or of the grow phase,
    fails, it is the last job that runs: the file system job of the phase
    does not run, no restoring geometry job runs, and the status is the
    error status. *)
Theorem geometry_failure_no_rollback {W : Type} `{Backend W}
        (op : ResizeOperation) (st st1 st2 : Exec W) :
  checkOriginal op st = Some (true, st1) ->
  moveExtendedJob op = None ->
  shrink op st1 = Some (true, st2) ->
  (forall (g : Job) (w1 : W),
      moveSetGeomJob op = Some g ->
      run g (world st2) = (false, w1) ->
      execute op st
      = Some (false, mkExec w1 StatusError (ran st2 ++ [(g, false)])
                            (report st2 ++ [MovingPartitionFailed;
                                            ResizingMovingFailed])))
  /\ (forall (st3 : Exec W) (g : Job) (w1 : W),
         move op st2 = Some (true, st3) ->
         growSetGeomJob op = Some g ->
         run g (world st3) = (false, w1) ->
         execute op st
         = Some (false, mkExec w1 StatusError (ran st3 ++ [(g, false)])
                               (report st3 ++ [CouldNotGrowPartition;
                                               ResizingMovingFailed]))).
Proof.
  intros Hc Hme Hs. split.
  - intros g w1 Hg Hrun.
    rewrite (execute_phases_fail op st st1 _ Hc Hme
               (phases_move_fails op st1 st2 _ Hs (move_geom_fails op st2 g w1 Hg Hrun))).
    cbn [world ran report]. rewrite <- app_assoc. reflexivity.
  - intros st3 g w1 Hm Hg Hrun.
    pose proof (phases_grow op st1 st2 st3 Hs Hm) as Hph.
    rewrite (grow_geom_fails op st3 g w1 Hg Hrun) in Hph.
    rewrite (execute_phases_fail op st st1 _ Hc Hme Hph).
    cbn [world ran report]. rewrite <- app_assoc. reflexivity.
Qed.

Lemma geometry_failure_no_rollback_witness :
  execute (ResizeOperation_new Sample.primary 500 1499)
          (start (Scripted.mk Sample.primary [true; false]))
  = Some (false,
          mkExec (Scripted.mk Sample.primary []) StatusError
                 ([(CheckFileSystemJob, true)] ++ [(SetPartGeometryJob 500 1000, false)])
                 ([] ++ [MovingPartitionFailed; ResizingMovingFailed]))
  /\ execute (ResizeOperation_new Sample.primary 1000 2999)
             (start (Scripted.mk Sample.primary [true; false]))
     = Some (false,
             mkExec (Scripted.mk Sample.primary []) StatusError
                    ([(CheckFileSystemJob, true)] ++ [(SetPartGeometryJob 1000 2000, false)])
                    ([] ++ [CouldNotGrowPartition; ResizingMovingFailed])).
Proof.
  split.
  - assert (Hc : checkOriginal (ResizeOperation_new Sample.primary 500 1499)
                   (start (Scripted.mk Sample.primary [true; false]))
                 = Some (true, mkExec (Scripted.mk Sample.primary [false]) StatusRunning
                                      [(CheckFileSystemJob, true)] []))
      by (vm_compute; reflexivity).
    assert (Hme : moveExtendedJob (ResizeOperation_new Sample.primary 500 1499) = None)
      by (vm_compute; reflexivity).
    assert (Hs : shrink (ResizeOperation_new Sample.primary 500 1499)
                   (mkExec (Scripted.mk Sample.primary [false]) StatusRunning
                           [(CheckFileSystemJob, true)] [])
                 = Some (true, mkExec (Scripted.mk Sample.primary [false]) StatusRunning
                                      [(CheckFileSystemJob, true)] []))
      by (vm_compute; reflexivity).
    destruct (geometry_failure_no_rollback _ _ _ _ Hc Hme Hs) as [Hmove _].
    apply (Hmove (SetPartGeometryJob 500 1000) (Scripted.mk Sample.primary []));
      vm_compute; reflexivity.
  - assert (Hc : checkOriginal (ResizeOperation_new Sample.primary 1000 2999)
                   (start (Scripted.mk Sample.primary [true; false]))
                 = Some (true, mkExec (Scripted.mk Sample.primary [false]) StatusRunning
                                      [(CheckFileSystemJob, true)] []))
      by (vm_compute; reflexivity).
    assert (Hme : moveExtendedJob (ResizeOperation_new Sample.primary 1000 2999) = None)
      by (vm_compute; reflexivity).
    assert (Hs : shrink (ResizeOperation_new Sample.primary 1000 2999)
                   (mkExec (Scripted.mk Sample.primary [false]) StatusRunning
                           [(CheckFileSystemJob, true)] [])
                 = Some (true, mkExec (Scripted.mk Sample.primary [false]) StatusRunning
                                      [(CheckFileSystemJob, true)] []))
      by (vm_compute; reflexivity).
    destruct (geometry_failure_no_rollback _ _ _ _ Hc Hme Hs) as [_ Hgrow].
    apply (Hgrow (mkExec (Scripted.mk Sample.primary [false]) StatusRunning
                         [(CheckFileSystemJob, true)] [])
                 (SetPartGeometryJob 1000 2000) (Scripted.mk Sample.primary []));
      vm_compute; reflexivity.
Defined.

(** X15.  A request for the sectors the partition already has, on a
    partition that is not Extended, composes the check jobs only and none
    of the three phases runs a job. *)
Theorem unchanged_request_runs_checks_only {W : Type} `{Backend W}
        (p : Partition) (nf nl : Z) (st : Exec W) :
  has (roles p) Extended = false ->
  nf = firstSector p ->
  nl = lastSector p ->
  jobs (ResizeOperation_new p nf nl)
  = phaseJobs (canCheck p) [CheckFileSystemJob] ++ phaseJobs (canCheck p) [CheckFileSystemJob]
  /\ phases (ResizeOperation_new p nf nl) st = Some (true, st).
Proof.
  intros Hext -> ->.
  assert (Ha : resizeAction (init p (firstSector p) (lastSector p)) = ResizeAction.None)
    by (apply resizeAction_None_iff; split; reflexivity).
  rewrite (ResizeOperation_new_nonExtended p _ _ Hext). cbv zeta. rewrite Ha.
  split.
  - cbn. destruct (canCheck p); reflexivity.
  - reflexivity.
Qed.

Lemma unchanged_request_runs_checks_only_witness :
  jobs (ResizeOperation_new Sample.primary 1000 1999)
  = phaseJobs (canCheck Sample.primary) [CheckFileSystemJob]
    ++ phaseJobs (canCheck Sample.primary) [CheckFileSystemJob]
  /\ phases (ResizeOperation_new Sample.primary 1000 1999)
            (start (Scripted.mk Sample.primary []))
     = Some (true, start (Scripted.mk Sample.primary [])).
Proof.
  exact (unchanged_request_runs_checks_only Sample.primary 1000 1999
           (start (Scripted.mk Sample.primary [])) eq_refl eq_refl eq_refl).
Defined.

(** ** Bounds on the composed job list *)

Lemma lengths_in_range (f l : Z) :
  0 <= f <= l -> l < 2 ^ 62 ->
  QInt64.add (QInt64.sub l f) 1 = l - f + 1.
Proof.
  intros Hf Hl. unfold QInt64.add, QInt64.sub.
  assert (H62 : 2 ^ 62 = 4611686018427387904) by reflexivity.
  rewrite (wrap_id (l - f)).
  - apply wrap_id. unfold QInt64.in_range, QInt64.min_signed, QInt64.max_signed.
    change (2 ^ 63) with 9223372036854775808. lia.
  - unfold QInt64.in_range, QInt64.min_signed, QInt64.max_signed.
    change (2 ^ 63) with 9223372036854775808. lia.
Qed.

(** X16.  Every geometry job of a composed list describes a sector range
    that lies inside the original range of the partition or inside the
    requested one (for sector ranges that are well formed and far from the
    limits of qint64): no intermediate geometry reaches outside both. *)
Theorem geometry_jobs_within_ranges (p : Partition) (nf nl : Z) :
  0 <= firstSector p <= lastSector p -> lastSector p < 2 ^ 62 ->
  0 <= nf <= nl -> nl < 2 ^ 62 ->
  forall s l : Z,
    In (SetPartGeometryJob s l) (jobs (ResizeOperation_new p nf nl)) ->
    1 <= l
    /\ ((firstSector p <= s /\ s + l - 1 <= lastSector p)
        \/ (nf <= s /\ s + l - 1 <= nl)).
Proof.
  intros Hof Hol Hnf Hnl s l Hin.
  assert (Hlen : newLength (init p nf nl) = nl - nf + 1)
    by (apply lengths_in_range; assumption).
  assert (Holen : origLength (init p nf nl) = lastSector p - firstSector p + 1)
    by (apply lengths_in_range; assumption).
  destruct (has (roles p) Extended) eqn:Hext.
  - rewrite (ResizeOperation_new_Extended p nf nl Hext) in Hin. cbn [jobs] in Hin.
    rewrite Hlen in Hin. apply in_app_iff in Hin.
    destruct Hin as [Hin | [Hin | []]].
    + destruct (canCheck p); cbn in Hin; [destruct Hin as [Hin | []] |]; try discriminate;
        contradiction.
    + injection Hin as <- <-. lia.
  - rewrite (ResizeOperation_new_nonExtended p nf nl Hext) in Hin. cbv zeta in Hin.
    cbn [jobs] in Hin.
    rewrite resizeAction_Shrink, resizeAction_Grow, resizeAction_MoveLeft,
      resizeAction_MoveRight in Hin.
    change (length p) with (origLength (init p nf nl)) in Hin.
    change (newFirstSector (init p nf nl)) with nf in Hin.
    change (origFirstSector (init p nf nl)) with (firstSector p) in Hin.
    rewrite Hlen, Holen in Hin.
    repeat rewrite in_app_iff in Hin.
    destruct (canCheck p);
      destruct (Z.gtb_spec (nl - nf + 1) (lastSector p - firstSector p + 1));
      destruct (Z.ltb_spec (nl - nf + 1) (lastSector p - firstSector p + 1));
      destruct (Z.gtb_spec nf (firstSector p));
      destruct (Z.ltb_spec nf (firstSector p));
      try lia; cbn in Hin;
      repeat match goal with
             | Hx : _ \/ _ |- _ => destruct Hx as [Hx | Hx]
             | Hx : False |- _ => contradiction
             | Hx : _ = SetPartGeometryJob _ _ |- _ =>
                 first [ discriminate Hx | injection Hx as <- <- ]
             end;
      lia.
Qed.

Lemma geometry_jobs_within_ranges_witness :
  1 <= 500
  /\ ((firstSector Sample.primary <= 1000 /\ 1000 + 500 - 1 <= lastSector Sample.primary)
      \/ (1200 <= 1000 /\ 1000 + 500 - 1 <= 1699)).
Proof.
  apply (geometry_jobs_within_ranges Sample.primary 1200 1699).
  - cbn. lia.
  - cbn. lia.
  - lia.
  - lia.
  - vm_compute. tauto.
Defined.

(** X17.  A composed list holds at most two geometry jobs, at most one
    job resizing the file system and at most one job moving it: the file
    system is never both shrunk and grown by one operation. *)
Theorem job_list_bounds (p : Partition) (nf nl : Z) :
  (List.length (filter isSetPartGeometryJob (jobs (ResizeOperation_new p nf nl))) <= 2)%nat
  /\ (List.length (filter isResizeFileSystemJob (jobs (ResizeOperation_new p nf nl))) <= 1)%nat
  /\ (List.length (filter isMoveFileSystemJob (jobs (ResizeOperation_new p nf nl))) <= 1)%nat.
Proof.
  destruct (has (roles p) Extended) eqn:Hext.
  - rewrite (ResizeOperation_new_Extended p nf nl Hext). cbn [jobs].
    destruct (canCheck p); cbn; lia.
  - rewrite (ResizeOperation_new_nonExtended p nf nl Hext). cbv zeta. cbn [jobs].
    rewrite resizeAction_Shrink, resizeAction_Grow.
    destruct (canCheck p);
      destruct (Z.gtb_spec (newLength (init p nf nl)) (origLength (init p nf nl)));
      destruct (Z.ltb_spec (newLength (init p nf nl)) (origLength (init p nf nl)));
      try lia;
      destruct (ResizeAction.test (resizeAction (init p nf nl)) ResizeAction.MoveLeft
                || ResizeAction.test (resizeAction (init p nf nl)) ResizeAction.MoveRight);
      cbn; lia.
Qed.

(** ** Failing runs *)

Section FailingRuns.

Context {W : Type} `{Backend W}.













End FailingRuns.


